(** * SmartRate: the tender-to-database matching pipeline

    A shallow embedding of the TypeScript sources of the SmartRate estimator
    (the modular variant, [App.tsx] with the service module and [types.ts],
    and the two single-file variants, [index.tsx] and the later revision that
    stores its catalog under the key [smart_rate_sor_v2]), followed by the
    properties of the catalog, the match orchestrator and the quotation
    aggregator.

    Conventions of the embedding.
    - A JavaScript [number] is an IEEE-754 binary64 value: [spec_float] with
      the operations of [SpecFloat] at precision 53 and maximal exponent 1024.
    - A JavaScript string is a [string]; a character stands for one code unit
      in the range 0..255.
    - Values of static type [any] (what [JSON.parse] returns) are [JSValue]s;
      reading a property of [undefined] or [null], calling a method that is
      not there and iterating a non-iterable raise [TypeError], as in the
      language.
    - [await]ed calls of the language-model client, [crypto.randomUUID()] and
      [Date.now()] are events of a free monad [Prog]; a [World] answers them.
    - Functions of the platform whose tables are not part of this repository
      ([String.prototype.toLowerCase], [JSON.parse], the abstract operation
      [ToNumber]) are the methods of the class [Builtins]. *)

From Stdlib Require Import ZArith Ascii String SpecFloat Permutation.
From stdpp Require Import base tactics option list strings gmap.
From Stdlib Require Import Sorted.

Set Warnings "-register-all".
Local Open Scope Z_scope.

(** ** Numbers: binary64 *)

Definition number : Type := spec_float.

Definition prec : Z := 53.
Definition emax : Z := 1024.

(** The number denoted by an integer literal (rounded to nearest, ties to even). *)
Definition ofZ (n : Z) : number := binary_normalize prec emax n 0 false.
Definition ofN (n : N) : number := ofZ (Z.of_N n).

Definition NaN : number := S754_nan.
Definition Infinity : number := S754_infinity false.
Definition zero : number := S754_zero false.
Definition one : number := ofZ 1.

(** [x + y] and [x * y] on numbers. *)
Definition js_add (x y : number) : number := SFadd prec emax x y.
Definition js_mul (x y : number) : number := SFmul prec emax x y.

(** [x === y], [x < y] and [x <= y] on numbers: NaN is unordered and
    unequal to itself, and [+0 === -0]. *)
Definition js_eq (x y : number) : bool := SFeqb x y.
Definition js_lt (x y : number) : bool := SFltb x y.
Definition js_le (x y : number) : bool := SFleb x y.

Definition is_nan (x : number) : bool :=
  match x with S754_nan => true | _ => false end.
Definition is_neg_zero (x : number) : bool :=
  match x with S754_zero true => true | _ => false end.
Definition is_pos_zero (x : number) : bool :=
  match x with S754_zero false => true | _ => false end.

(** ToBoolean on a number: [+0], [-0] and [NaN] are falsy. *)
Definition number_truthy (x : number) : bool :=
  match x with
  | S754_zero _ | S754_nan => false
  | _ => true
  end.

(** [x || d] on numbers. *)
Definition number_or (x d : number) : number :=
  if number_truthy x then x else d.

(** [Math.min(...xs)] (ECMA-262, 21.3.2.25): the loop starts from [+Infinity],
    returns NaN at the first NaN, and prefers [-0] to [+0].  The spread
    argument list is taken to be within the limit of the engine. *)
Fixpoint Math_min_from (lowest : number) (xs : list number) : number :=
  match xs with
  | [] => lowest
  | x :: rest =>
      if is_nan x then NaN
      else
        let lowest1 := if is_neg_zero x && is_pos_zero lowest then x else lowest in
        let lowest2 := if js_lt x lowest1 then x else lowest1 in
        Math_min_from lowest2 rest
  end.

Definition Math_min (xs : list number) : number := Math_min_from Infinity xs.

(** ** Strings *)

(** WhiteSpace and LineTerminator code units below 256: TAB, LF, VT, FF, CR,
    SP and NBSP. *)
Definition isWhiteSpace (c : ascii) : bool :=
  match N_of_ascii c with
  | 9 | 10 | 11 | 12 | 13 | 32 | 160 => true
  | _ => false
  end%N.

Fixpoint trimStart (s : string) : string :=
  match s with
  | EmptyString => EmptyString
  | String c rest => if isWhiteSpace c then trimStart rest else s
  end.

Definition trimEnd (s : string) : string :=
  String.rev (trimStart (String.rev s)).

(** [s.trim()] *)
Definition trim (s : string) : string := trimEnd (trimStart s).

(** ToBoolean on a string: only the empty string is falsy. *)
Definition string_truthy (s : string) : bool :=
  match s with EmptyString => false | _ => true end.

(** ** Untyped values *)

Inductive JSValue : Type :=
| JUndefined
| JNull
| JBool (b : bool)
| JNum (x : number)
| JStr (s : string)
| JArr (elems : list JSValue)
| JObj (props : list (string * JSValue)).

(** ToBoolean *)
Definition truthy (v : JSValue) : bool :=
  match v with
  | JUndefined | JNull => false
  | JBool b => b
  | JNum x => number_truthy x
  | JStr s => string_truthy s
  | JArr _ | JObj _ => true
  end.

(** [v || d] *)
Definition js_or (v d : JSValue) : JSValue := if truthy v then v else d.

(** [s === v] for a string [s] and an untyped [v]. *)
Definition string_strict_eq (s : string) (v : JSValue) : bool :=
  match v with
  | JStr s' => String.eqb s s'
  | _ => false
  end.

Fixpoint lookup_prop (key : string) (props : list (string * JSValue)) : JSValue :=
  match props with
  | [] => JUndefined
  | (k, v) :: rest => if String.eqb k key then v else lookup_prop key rest
  end.

(** Exceptions of the language and of the client library. *)
Inductive JSError : Type := TypeError | SyntaxError | ApiError.

(** The platform functions that the sources call and do not define. *)
Class Builtins : Type := {
  (** [String.prototype.toLowerCase] *)
  toLowerCase : string → string;
  (** [JSON.parse]; [None] when it throws a SyntaxError *)
  JSON_parse : string → option JSValue;
  (** the abstract operation ToNumber, applied by [*] to its operands *)
  ToNumber : JSValue → number;
  ToNumber_number : ∀ x, ToNumber (JNum x) = x;
}.

(** ** The data model ([types.ts]) *)

Module SORItem.
Record t : Type := mk {
  id : string;
  name : string;
  unit : string;
  rate : number;
  scopeOfWork : string;
  source : string;
  timestamp : number;
}.
End SORItem.

(** [Omit<SORItem, 'id' | 'timestamp'>], the payload of the rate form. *)
Module RateFields.
Record t : Type := mk {
  name : string;
  unit : string;
  rate : number;
  scopeOfWork : string;
  source : string;
}.
End RateFields.

Inductive Status : Type := pending | matched | review | no_match.

(** A [TenderItem] as it exists at run time.  The interface declares
    [name : string], [quantity : number], [requestedScope : string] and
    [estimatedRate? : number]; the orchestrator fills these four fields from
    a candidate of type [any] without a check, so they hold whatever value the
    candidate had. *)
Module TenderItem.
Record t : Type := mk {
  id : string;
  name : JSValue;
  quantity : JSValue;
  requestedScope : JSValue;
  estimatedRate : JSValue;
  matchedRate : option SORItem.t;
  status : Status;
}.
End TenderItem.

(** ** Effects *)

(** The [{ id, name }] pairs sent to the matcher. *)
Definition DbItem : Type := (string * string)%type.

(** The [generateContent] requests of the pipeline.  The prompt text and the
    response schema are functions of these arguments only (they differ in
    wording between the three variants of the service). *)
Inductive Request : Type :=
| FindBestMatchPrompt (targetItemName targetScope : JSValue) (dbItems : list DbItem)
| ParseBulkItemsPrompt (text : string).

(** What awaiting [ai.models.generateContent] gives: a rejection, or a
    response whose [text] is a string or [undefined]. *)
Inductive Response : Type :=
| Rejects
| Resolves (text : option string).

Inductive Prog (A : Type) : Type :=
| Ret (a : A)
| Throw (e : JSError)
| GenerateContent (req : Request) (k : Response → Prog A)
| RandomUUID (k : string → Prog A)
| DateNow (k : number → Prog A).

Arguments Ret {A} a.
Arguments Throw {A} e.
Arguments GenerateContent {A} req k.
Arguments RandomUUID {A} k.
Arguments DateNow {A} k.

Fixpoint bind {A B : Type} (p : Prog A) (f : A → Prog B) : Prog B :=
  match p with
  | Ret a => f a
  | Throw e => Throw e
  | GenerateContent req k => GenerateContent req (λ r, bind (k r) f)
  | RandomUUID k => RandomUUID (λ u, bind (k u) f)
  | DateNow k => DateNow (λ n, bind (k n) f)
  end.

(** [try { p } catch (e) { h e }] *)
Fixpoint try_catch {A : Type} (p : Prog A) (h : JSError → Prog A) : Prog A :=
  match p with
  | Ret a => Ret a
  | Throw e => h e
  | GenerateContent req k => GenerateContent req (λ r, try_catch (k r) h)
  | RandomUUID k => RandomUUID (λ u, try_catch (k u) h)
  | DateNow k => DateNow (λ n, try_catch (k n) h)
  end.

#[global] Instance Prog_ret : MRet Prog := @Ret.
#[global] Instance Prog_bind : MBind Prog := λ A B f p, bind p f.

(** [await ai.models.generateContent(req)], then [response.text] *)
Definition generateContent (req : Request) : Prog (option string) :=
  GenerateContent req (λ r,
    match r with
    | Rejects => Throw ApiError
    | Resolves text => Ret text
    end).

(** [crypto.randomUUID()] and [Date.now()] *)
Definition randomUUID : Prog string := RandomUUID Ret.
Definition now : Prog number := DateNow Ret.

(** The observable events of a run, in order. *)
Inductive Event : Type :=
| EvGenerateContent (req : Request)
| EvRandomUUID
| EvDateNow.

(** How a run ends. *)
Inductive Completion (A : Type) : Type :=
| Normal (a : A)
| Abrupt (e : JSError).

Arguments Normal {A} a.
Arguments Abrupt {A} e.

(** The environment of a run: the answer to the [n]-th event.  The language
    model may answer the same request differently each time. *)
Record World : Type := {
  model_answer : nat → Request → Response;
  uuid_answer : nat → string;
  clock_answer : nat → number;
}.

(** [run w n p]: the events and the completion of [p] when [n] events have
    already happened. *)
Fixpoint run {A : Type} (w : World) (n : nat) (p : Prog A) : list Event * Completion A :=
  match p with
  | Ret a => ([], Normal a)
  | Throw e => ([], Abrupt e)
  | GenerateContent req k =>
      let r := run w (S n) (k (model_answer w n req)) in
      (EvGenerateContent req :: r.1, r.2)
  | RandomUUID k =>
      let r := run w (S n) (k (uuid_answer w n)) in
      (EvRandomUUID :: r.1, r.2)
  | DateNow k =>
      let r := run w (S n) (k (clock_answer w n)) in
      (EvDateNow :: r.1, r.2)
  end.

Definition is_matcher_call (ev : Event) : bool :=
  match ev with
  | EvGenerateContent (FindBestMatchPrompt _ _ _) => true
  | _ => false
  end.

(** Weakest preconditions: [wp p Q] when every run of [p], whatever the
    world answers, ends in a trace and a completion that satisfy [Q]. *)
Fixpoint wp {A : Type} (p : Prog A) (Q : list Event → Completion A → Prop) : Prop :=
  match p with
  | Ret a => Q [] (Normal a)
  | Throw e => Q [] (Abrupt e)
  | GenerateContent req k => ∀ r, wp (k r) (λ t c, Q (EvGenerateContent req :: t) c)
  | RandomUUID k => ∀ u, wp (k u) (λ t c, Q (EvRandomUUID :: t) c)
  | DateNow k => ∀ x, wp (k x) (λ t c, Q (EvDateNow :: t) c)
  end.

(** ** The language-model service (the service module of the modular
    variant; the [gemini] objects of the single-file variants have the same
    control flow) *)

Section Service.
Context `{Builtins}.

(** [text || d] for [text : string | undefined] *)
Definition text_or (text : option string) (d : string) : string :=
  match text with
  | Some s => if string_truthy s then s else d
  | None => d
  end.

(** [JSON.parse(s)] *)
Definition json_parse (s : string) : Prog JSValue :=
  match JSON_parse s with
  | Some v => Ret v
  | None => Throw SyntaxError
  end.

(** [v.key] for a key that is neither an index nor [length]: TypeError on
    [undefined] and [null], the own property of an object, [undefined] on
    every other value. *)
Definition get (v : JSValue) (key : string) : Prog JSValue :=
  match v with
  | JUndefined | JNull => Throw TypeError
  | JObj props => Ret (lookup_prop key props)
  | _ => Ret JUndefined
  end.

Definition findBestMatchingItem
    (targetItemName targetScope : JSValue) (dbItems : list DbItem) : Prog JSValue :=
  if (length dbItems =? 0)%nat then Ret JNull
  else
    try_catch
      (text ← generateContent (FindBestMatchPrompt targetItemName targetScope dbItems);
       result ← json_parse (text_or text "{}");
       matchedId ← get result "matchedId";
       mret (js_or matchedId JNull))
      (λ _, Ret JNull).

Definition parseBulkItems (text : string) : Prog JSValue :=
  try_catch
    (response_text ← generateContent (ParseBulkItemsPrompt text);
     json_parse (text_or response_text "[]"))
    (λ _, Ret (JArr [])).

End Service.

(** ** Component state *)

(** The state of [TenderProcessor]: its three [useState] cells. *)
Module TenderProcessor.
Record state : Type := mk {
  inputText : string;
  items : list TenderItem.t;
  processing : bool;
}.
Definition setItems (v : list TenderItem.t) (st : state) : state :=
  mk (inputText st) v (processing st).
Definition setProcessing (v : bool) (st : state) : state :=
  mk (inputText st) (items st) v.
End TenderProcessor.

Inductive View : Type := database | tender.

(** The state of [App]: its five [useState] cells. *)
Module App.
Record state : Type := mk {
  view : View;
  sorData : list SORItem.t;
  isFormOpen : bool;
  editingItem : option SORItem.t;
  searchQuery : string;
}.
Definition setSorData (v : list SORItem.t) (st : state) : state :=
  mk (view st) v (isFormOpen st) (editingItem st) (searchQuery st).
Definition setIsFormOpen (v : bool) (st : state) : state :=
  mk (view st) (sorData st) v (editingItem st) (searchQuery st).
Definition setEditingItem (v : option SORItem.t) (st : state) : state :=
  mk (view st) (sorData st) (isFormOpen st) v (searchQuery st).
End App.

(** ** The catalog ([App] and [RateList]; the three variants agree) *)

Section Catalog.
Context `{Builtins}.

(** [{ ...item, id: r.id, timestamp: r.timestamp }] *)
Definition replace_fields (item : RateFields.t) (r : SORItem.t) : SORItem.t :=
  SORItem.mk (SORItem.id r)
    (RateFields.name item) (RateFields.unit item) (RateFields.rate item)
    (RateFields.scopeOfWork item) (RateFields.source item)
    (SORItem.timestamp r).

(** [{ ...item, id: crypto.randomUUID(), timestamp: Date.now() }] *)
Definition new_record (item : RateFields.t) : Prog SORItem.t :=
  id ← randomUUID;
  timestamp ← now;
  mret (SORItem.mk id
          (RateFields.name item) (RateFields.unit item) (RateFields.rate item)
          (RateFields.scopeOfWork item) (RateFields.source item)
          timestamp).

Definition handleAddOrUpdateRate (item : RateFields.t) (st : App.state) : Prog App.state :=
  st1 ← match App.editingItem st with
        | Some editing =>
            mret (App.setSorData
                    ((λ r, if String.eqb (SORItem.id r) (SORItem.id editing)
                           then replace_fields item r else r)
                     <$> App.sorData st)
                    st)
        | None =>
            newItem ← new_record item;
            mret (App.setSorData (App.sorData st ++ [newItem]) st)
        end;
  mret (App.setEditingItem None (App.setIsFormOpen false st1)).

(** [r.name.toLowerCase() === item.name.toLowerCase()] *)
Definition same_name (item r : SORItem.t) : bool :=
  String.eqb (toLowerCase (SORItem.name r)) (toLowerCase (SORItem.name item)).

Definition isLowest (allRates : list SORItem.t) (item : SORItem.t) : bool :=
  let sameItems := List.filter (same_name item) allRates in
  (1 <? length sameItems)%nat
  && js_eq (SORItem.rate item) (Math_min (map SORItem.rate sameItems)).

(** The typed reading of a stored catalog: a [SORItem[]] is an array of
    objects that carry the seven fields at their declared types. *)
Definition as_string (v : JSValue) : option string :=
  match v with JStr s => Some s | _ => None end.

Definition as_number (v : JSValue) : option number :=
  match v with JNum x => Some x | _ => None end.

Definition as_SORItem (v : JSValue) : option SORItem.t :=
  match v with
  | JObj props =>
      id ← as_string (lookup_prop "id" props);
      name ← as_string (lookup_prop "name" props);
      unit ← as_string (lookup_prop "unit" props);
      rate ← as_number (lookup_prop "rate" props);
      scopeOfWork ← as_string (lookup_prop "scopeOfWork" props);
      source ← as_string (lookup_prop "source" props);
      timestamp ← as_number (lookup_prop "timestamp" props);
      Some (SORItem.mk id name unit rate scopeOfWork source timestamp)
  | _ => None
  end.

Definition as_SORItems (v : JSValue) : option (list SORItem.t) :=
  match v with
  | JArr elems => mapM as_SORItem elems
  | _ => None
  end.

(** What the mount effect leaves behind: the state, when [setSorData] was
    not called or was given a [SORItem[]]; or the value that was stored in
    [sorData] against its type. *)
Inductive Mounted : Type :=
| Typed (st : App.state)
| IllTyped (v : JSValue).

(** [setSorData(v)] for [v : any] *)
Definition setSorData_any (v : JSValue) (st : App.state) : Mounted :=
  match as_SORItems v with
  | Some records => Typed (App.setSorData records st)
  | None => IllTyped v
  end.

End Catalog.

(** ** The quotation ([TenderProcessor]) *)

Section Quotation.
Context `{Builtins}.

(** [item.quantity * (item.matchedRate?.rate || 0)] *)
Definition lineAmount (item : TenderItem.t) : number :=
  js_mul (ToNumber (TenderItem.quantity item))
    (match TenderItem.matchedRate item with
     | Some r => number_or (SORItem.rate r) zero
     | None => zero
     end).

(** [items.reduce((sum, item) => sum + lineAmount(item), 0)] *)
Definition calculateTotal (items : list TenderItem.t) : number :=
  fold_left (λ sum item, js_add sum (lineAmount item)) items zero.

(** [for (const p of v)]: arrays and strings are iterable. *)
Definition iterate (v : JSValue) : Prog (list JSValue) :=
  match v with
  | JArr elems => Ret elems
  | JStr s => Ret (map (λ c, JStr (String c EmptyString)) (list_ascii_of_string s))
  | _ => Throw TypeError
  end.

(** The loop [for (const p of parsed) { results.push(await body(p)) }]. *)
Fixpoint for_of (body : JSValue → Prog TenderItem.t)
    (parsed : list JSValue) (results : list TenderItem.t) : Prog (list TenderItem.t) :=
  match parsed with
  | [] => mret results
  | p :: rest =>
      item ← body p;
      for_of body rest (results ++ [item])
  end.

(** [sorData.map(d => ({ id: d.id, name: d.name }))] *)
Definition dbItems_of (sorData : list SORItem.t) : list DbItem :=
  map (λ d, (SORItem.id d, SORItem.name d)) sorData.

(** [sorData.find(d => d.id === matchedId)] *)
Definition find_by_id (sorData : list SORItem.t) (matchedId : JSValue) : option SORItem.t :=
  List.find (λ d, string_strict_eq (SORItem.id d) matchedId) sorData.

(** [v.toLowerCase()] for [v : any]: only a string has the method. *)
Definition call_toLowerCase (v : JSValue) : Prog string :=
  match v with
  | JStr s => Ret (toLowerCase s)
  | _ => Throw TypeError
  end.

End Quotation.

(** ** The catalog, continued: delete, bulk import, search and sort *)

(** [sorData.filter(item => item.id !== id)], stored by [setSorData]:
    [deleteRate] of [App.tsx], and the [onDelete] handler that the
    single-file variants pass to [RateList]. *)
Definition deleteRate (id : string) (st : App.state) : App.state :=
  App.setSorData
    (List.filter (λ item, negb (String.eqb (SORItem.id item) id)) (App.sorData st)) st.

(** [addBulkRates] of [App.tsx], and the [onBulkSubmit] handler of the
    single-file variants: [items.map] builds one record per item, each with
    an id and a time of its own; the records are appended to the catalog and
    the form is closed. *)
Definition addBulkRates (items : list RateFields.t) (st : App.state) : Prog App.state :=
  newItems ← mapM new_record items;
  mret (App.setIsFormOpen false (App.setSorData (App.sorData st ++ newItems) st)).

(** [s.includes(searchString)] *)
Fixpoint includes (s searchString : string) : bool :=
  String.prefix searchString s
  || match s with
     | String _ rest => includes rest searchString
     | EmptyString => false
     end.

(** [x - y] on numbers. *)
Definition js_sub (x y : number) : number := SFsub prec emax x y.

(** [xs.sort(comparefn)] (ECMA-262, 23.1.3.30) for a consistent comparator:
    the sort is stable, so that its result is the one of this insertion
    sort, in which [x] goes before [y] when [comparefn(x, y) < 0].  With a
    comparator that is not consistent the order is left to the engine, and
    nothing is stated about it. *)
Fixpoint insert_by {A : Type} (comparefn : A → A → number) (x : A) (sorted : list A) : list A :=
  match sorted with
  | [] => [x]
  | y :: rest =>
      if js_lt (comparefn y x) zero then y :: insert_by comparefn x rest
      else x :: sorted
  end.

Definition Array_sort {A : Type} (comparefn : A → A → number) (xs : list A) : list A :=
  foldr (insert_by comparefn) [] xs.

(** ** Numbers as text, and the cells of the export *)

(** The platform functions between numbers and their decimal text. *)
Class Numerals : Type := {
  (** [Number.prototype.toString] in radix 10, which is also [String(x)] *)
  Number_toString : number → string;
  (** [parseFloat] *)
  parseFloat : string → number;
}.

Definition dquote : ascii := "034"%char.
Definition CR : ascii := "013"%char.
Definition LF : ascii := "010"%char.

(** A string that may hold a code unit above 255 is the list of its code
    units. *)
Definition code_units (s : string) : list N := map N_of_ascii (list_ascii_of_string s).

(** The code unit U+FEFF, the byte order mark. *)
Definition BOM : N := 65279%N.

Section Cells.
Context `{Numerals}.

(** [String(v)] for a value read from JSON or built from such values: an
    array prints its elements separated by commas, a [null] or [undefined]
    element as the empty string; an object prints as [[object Object]]. *)
Fixpoint ToString (v : JSValue) : string :=
  match v with
  | JUndefined => "undefined"
  | JNull => "null"
  | JBool true => "true"
  | JBool false => "false"
  | JNum x => Number_toString x
  | JStr s => s
  | JArr elems =>
      String.concat ","
        (map (λ e, match e with
                   | JUndefined | JNull => EmptyString
                   | _ => ToString e
                   end) elems)
  | JObj _ => "[object Object]"
  end.

(** [val.replace] with the global pattern of the double quote and two
    double quotes as the replacement. *)
Fixpoint double_quotes (val : string) : string :=
  match val with
  | EmptyString => EmptyString
  | String c rest =>
      if Ascii.eqb c dquote then String dquote (String dquote (double_quotes rest))
      else String c (double_quotes rest)
  end.

End Cells.

(** ** The rate form and the rest of the service *)

(** The requests of the service that the quotation pipeline does not make. *)
Inductive RateRequest : Type :=
| ParseRatesPrompt (text : string)
| CheckScopePrompt (requestedScope existingScope : string).

(** A function that awaits at most one answer of the language model: it
    ends without a call, or it makes the call [req] and goes on with what
    the call gives.  The programs inside make no call. *)
Inductive Awaits (A : Type) : Type :=
| NoCall (p : Prog A)
| OneCall (req : RateRequest) (k : Response → Prog A).

Arguments NoCall {A} p.
Arguments OneCall {A} req k.

(** What [await] gives, then [response.text]: a rejection is thrown. *)
Definition awaited (response : Response) : Prog (option string) :=
  match response with
  | Rejects => Throw ApiError
  | Resolves text => Ret text
  end.

(** [const a = await p; f a] *)
Definition await_then {A B : Type} (p : Awaits A) (f : A → Prog B) : Awaits B :=
  match p with
  | NoCall p => NoCall (p ≫= f)
  | OneCall req k => OneCall req (λ response, k response ≫= f)
  end.

(** [v ?? d] *)
Definition nullish_or (v d : JSValue) : JSValue :=
  match v with
  | JUndefined | JNull => d
  | _ => v
  end.

(** The state of [RateForm]: its five [useState] cells.  [previewItems]
    holds what the extraction returned, a value of type [any] at run time. *)
Module RateForm.
Inductive Mode : Type := single | bulk.
Record FormData : Type := mkFormData {
  name : string;
  unit : string;
  rate : string;
  scopeOfWork : string;
  source : string;
}.
Record state : Type := mk {
  mode : Mode;
  isProcessing : bool;
  bulkText : string;
  previewItems : JSValue;
  formData : FormData;
}.
Definition setMode (v : Mode) (st : state) : state :=
  mk v (isProcessing st) (bulkText st) (previewItems st) (formData st).
Definition setIsProcessing (v : bool) (st : state) : state :=
  mk (mode st) v (bulkText st) (previewItems st) (formData st).
Definition setPreviewItems (v : JSValue) (st : state) : state :=
  mk (mode st) (isProcessing st) (bulkText st) v (formData st).
Definition setFormData (v : FormData) (st : state) : state :=
  mk (mode st) (isProcessing st) (bulkText st) (previewItems st) v.
End RateForm.

Section RateService.
Context `{Builtins}.

(** [parseRatesFromText]: the three variants of the service agree. *)
Definition parseRatesFromText (text : string) : Awaits JSValue :=
  OneCall (ParseRatesPrompt text) (λ response,
    try_catch
      (response_text ← awaited response;
       json_parse (text_or response_text "[]"))
      (λ _, Ret (JArr []))).

(** [handleScrape] of [RateForm]: the two single-file variants agree. *)
Definition handleScrape (st : RateForm.state) : Awaits RateForm.state :=
  if negb (string_truthy (trim (RateForm.bulkText st))) then NoCall (mret st)
  else
    let st1 := RateForm.setIsProcessing true st in
    await_then (parseRatesFromText (RateForm.bulkText st))
      (λ extracted,
         mret (RateForm.setIsProcessing false (RateForm.setPreviewItems extracted st1))).

End RateService.

Section RateFormEdit.
Context `{Numerals}.

(** The effect of [RateForm] on [editingItem]: the form takes the fields of
    the record, the rate as its text. *)
Definition editEffect (editingItem : option SORItem.t) (st : RateForm.state) : RateForm.state :=
  match editingItem with
  | Some editing =>
      RateForm.setMode RateForm.single
        (RateForm.setFormData
           (RateForm.mkFormData (SORItem.name editing) (SORItem.unit editing)
              (Number_toString (SORItem.rate editing))
              (SORItem.scopeOfWork editing) (SORItem.source editing))
           st)
  | None => st
  end.

(** What the form submits: [{ ...formData, rate: parseFloat(formData.rate) }] *)
Definition submitted (st : RateForm.state) : RateFields.t :=
  RateFields.mk (RateForm.name (RateForm.formData st)) (RateForm.unit (RateForm.formData st))
    (parseFloat (RateForm.rate (RateForm.formData st)))
    (RateForm.scopeOfWork (RateForm.formData st)) (RateForm.source (RateForm.formData st)).

End RateFormEdit.

(** ** The single-file variant [index.tsx] *)

Module Index.
Section Index.
Context `{Builtins}.

Definition handleProcess_body (sorData : list SORItem.t) (p : JSValue) : Prog TenderItem.t :=
  targetItemName ← get p "name";
  targetScope ← get p "requestedScope";
  matchedId ← findBestMatchingItem targetItemName targetScope (dbItems_of sorData);
  let bestMatch := find_by_id sorData matchedId in
  id ← randomUUID;
  name ← get p "name";
  quantity ← get p "quantity";
  requestedScope ← get p "requestedScope";
  estimatedRate ← get p "estimatedRate";
  mret (TenderItem.mk id name (js_or quantity (JNum one)) requestedScope estimatedRate
          bestMatch
          (match bestMatch with Some _ => review | None => no_match end)).

Definition handleProcess (sorData : list SORItem.t) (st : TenderProcessor.state)
    : Prog TenderProcessor.state :=
  let st1 := TenderProcessor.setProcessing true st in
  parsed ← parseBulkItems (TenderProcessor.inputText st);
  candidates ← iterate parsed;
  processed ← for_of (handleProcess_body sorData) candidates [];
  mret (TenderProcessor.setProcessing false (TenderProcessor.setItems processed st1)).

(** [disabled={processing || !inputText.trim()}] *)
Definition buildQuote_disabled (st : TenderProcessor.state) : bool :=
  TenderProcessor.processing st
  || negb (string_truthy (trim (TenderProcessor.inputText st))).

(** A click on "Build Quote".  The button is rendered only while
    [items.length === 0], and a disabled button does not run its handler. *)
Definition buildQuote_click (sorData : list SORItem.t) (st : TenderProcessor.state)
    : Prog TenderProcessor.state :=
  if (length (TenderProcessor.items st) =? 0)%nat && negb (buildQuote_disabled st)
  then handleProcess sorData st
  else mret st.

Definition storage_key : string := "smart_rate_sor".

(** The mount effect: [const saved = localStorage.getItem(key);
    if (saved) setSorData(JSON.parse(saved));] *)
Definition loadEffect (localStorage : gmap string string) (st : App.state) : Prog Mounted :=
  match localStorage !! storage_key with
  | Some saved =>
      if string_truthy saved then
        v ← json_parse saved;
        mret (setSorData_any v st)
      else mret (Typed st)
  | None => mret (Typed st)
  end.

(** [filteredRates]: the records whose name holds the query, both in lower
    case. *)
Definition filteredRates (st : App.state) : list SORItem.t :=
  List.filter
    (λ i, includes (toLowerCase (SORItem.name i)) (toLowerCase (App.searchQuery st)))
    (App.sorData st).

(** [gemini.checkScopeMatch]: the value that the answer parses to is
    returned as it is. *)
Definition checkScopeMatch (requestedScope existingScope : string) : Awaits JSValue :=
  OneCall (CheckScopePrompt requestedScope existingScope) (λ response,
    try_catch
      (text ← awaited response;
       json_parse (text_or text "{}"))
      (λ _, Ret (JObj [("isMatch", JBool false);
                       ("confidence", JNum zero);
                       ("reason", JStr "Error validating scope.")]))).

End Index.
End Index.

(** ** The later single-file variant (catalog key [smart_rate_sor_v2]) *)

Module IndexV2.
Section IndexV2.
Context `{Builtins}.

Definition handleProcess_body (sorData : list SORItem.t) (p : JSValue) : Prog TenderItem.t :=
  targetItemName ← get p "name";
  targetScope ← get p "requestedScope";
  matchedId ← findBestMatchingItem targetItemName targetScope (dbItems_of sorData);
  let match_ := find_by_id sorData matchedId in
  id ← randomUUID;
  name ← get p "name";
  quantity ← get p "quantity";
  requestedScope ← get p "requestedScope";
  estimatedRate ← get p "estimatedRate";
  status ← match match_ with
           | Some m =>
               lowered ← call_toLowerCase name;
               mret (if String.eqb (toLowerCase (SORItem.name m)) lowered
                     then matched else review)
           | None => mret no_match
           end;
  mret (TenderItem.mk id name (js_or quantity (JNum one)) requestedScope estimatedRate
          match_ status).

Definition handleProcess (sorData : list SORItem.t) (st : TenderProcessor.state)
    : Prog TenderProcessor.state :=
  if negb (string_truthy (trim (TenderProcessor.inputText st))) then mret st
  else
    let st1 := TenderProcessor.setProcessing true st in
    parsed ← parseBulkItems (TenderProcessor.inputText st);
    candidates ← iterate parsed;
    results ← for_of (handleProcess_body sorData) candidates [];
    mret (TenderProcessor.setProcessing false (TenderProcessor.setItems results st1)).

(** [disabled={processing || !inputText.trim() || sorData.length === 0}] *)
Definition buildQuote_disabled (sorData : list SORItem.t) (st : TenderProcessor.state) : bool :=
  TenderProcessor.processing st
  || negb (string_truthy (trim (TenderProcessor.inputText st)))
  || (length sorData =? 0)%nat.

Definition buildQuote_click (sorData : list SORItem.t) (st : TenderProcessor.state)
    : Prog TenderProcessor.state :=
  if (length (TenderProcessor.items st) =? 0)%nat && negb (buildQuote_disabled sorData st)
  then handleProcess sorData st
  else mret st.

Definition storage_key : string := "smart_rate_sor_v2".

Definition loadEffect (localStorage : gmap string string) (st : App.state) : Prog Mounted :=
  match localStorage !! storage_key with
  | Some saved =>
      if string_truthy saved then
        v ← json_parse saved;
        mret (setSorData_any v st)
      else mret (Typed st)
  | None => mret (Typed st)
  end.

(** [filteredRates]: the records whose name or source holds the query. *)
Definition filteredRates (st : App.state) : list SORItem.t :=
  List.filter
    (λ i, includes (toLowerCase (SORItem.name i)) (toLowerCase (App.searchQuery st))
          || includes (toLowerCase (SORItem.source i)) (toLowerCase (App.searchQuery st)))
    (App.sorData st).

(** [items.filter(i => i.matchedRate).length], shown under the total. *)
Definition matchedCount (items : list TenderItem.t) : nat :=
  length (List.filter
            (λ i, match TenderItem.matchedRate i with Some _ => true | None => false end)
            items).

End IndexV2.
End IndexV2.

(** ** The modular variant ([App.tsx]) *)

Module Modular.
Section Modular.
Context `{Builtins}.

Definition storage_key : string := "smart_rate_sor".

(** The mount effect: as above, with the parse inside
    [try { ... } catch (e) { console.error(...); setSorData([]); }]. *)
Definition loadEffect (localStorage : gmap string string) (st : App.state) : Prog Mounted :=
  match localStorage !! storage_key with
  | Some saved =>
      if string_truthy saved then
        try_catch
          (v ← json_parse saved;
           mret (setSorData_any v st))
          (λ _, mret (Typed (App.setSorData [] st)))
      else mret (Typed st)
  | None => mret (Typed st)
  end.

(** [groupedRates]: the records whose name, scope or source holds the query,
    sorted by [(a, b) => b.timestamp - a.timestamp]. *)
Definition groupedRates (st : App.state) : list SORItem.t :=
  Array_sort (λ a b, js_sub (SORItem.timestamp b) (SORItem.timestamp a))
    (List.filter
       (λ item,
          includes (toLowerCase (SORItem.name item)) (toLowerCase (App.searchQuery st))
          || includes (toLowerCase (SORItem.scopeOfWork item)) (toLowerCase (App.searchQuery st))
          || includes (toLowerCase (SORItem.source item)) (toLowerCase (App.searchQuery st)))
       (App.sorData st)).

(** [checkScopeMatch] of the service module: each field of the result
    falls back on a default of its own. *)
Definition checkScopeMatch (requestedScope existingScope : string) : Awaits JSValue :=
  OneCall (CheckScopePrompt requestedScope existingScope) (λ response,
    try_catch
      (text ← awaited response;
       result ← json_parse (text_or text "{}");
       isMatch ← get result "isMatch";
       confidence ← get result "confidence";
       reason ← get result "reason";
       mret (JObj [("isMatch", nullish_or isMatch (JBool false));
                   ("confidence", nullish_or confidence (JNum zero));
                   ("reason", nullish_or reason (JStr "Unknown"))]))
      (λ _, Ret (JObj [("isMatch", JBool false);
                       ("confidence", JNum zero);
                       ("reason", JStr "Error validating scope.")]))).

Context `{Numerals}.

(** [generateCSV]: every cell between double quotes, cells joined by
    commas, rows by CR LF, after a byte order mark. *)
Definition generateCSV (rows : list (list JSValue)) : list N :=
  let content :=
    String.concat (String CR (String LF EmptyString))
      (map (λ row,
         String.concat ","
           (map (λ cell,
              let val := match cell with
                         | JNull | JUndefined => EmptyString
                         | _ => ToString cell
                         end in
              String dquote (double_quotes val ++ String dquote EmptyString))
            row))
       rows) in
  BOM :: code_units content.

(** The text that [handleDownloadDatabaseExcel] hands to the download. *)
Definition csvContent (st : App.state) : list N :=
  let headers := [JStr "Item Name"; JStr "Unit"; JStr "Rate (INR)"; JStr "Source";
                  JStr "Scope of Work"] in
  let data := map (λ r, [JStr (SORItem.name r); JStr (SORItem.unit r); JNum (SORItem.rate r);
                         JStr (SORItem.source r); JStr (SORItem.scopeOfWork r)])
                (App.sorData st) in
  generateCSV (headers :: data).

End Modular.
End Modular.

(** ** An executable environment for the examples

    One instance of [Builtins], used where a statement is evaluated on
    concrete inputs: lower-casing of the letters A..Z, a [JSON.parse] for
    the fragment of JSON without escapes, fractions and exponents, and
    ToNumber on primitive values other than strings. *)

Module Demo.

Definition lower_ascii (c : ascii) : ascii :=
  let n := nat_of_ascii c in
  if ((65 <=? n) && (n <=? 90))%nat then ascii_of_nat (n + 32) else c.

Fixpoint lower (s : string) : string :=
  match s with
  | EmptyString => EmptyString
  | String c rest => String (lower_ascii c) (lower rest)
  end.

Definition double_quote : ascii := "034"%char.

Fixpoint skip_ws (cs : list ascii) : list ascii :=
  match cs with
  | c :: rest => if isWhiteSpace c then skip_ws rest else cs
  | [] => []
  end.

Definition digit_of (c : ascii) : option Z :=
  let n := nat_of_ascii c in
  if ((48 <=? n) && (n <=? 57))%nat then Some (Z.of_nat n - 48) else None.

Definition is_digit (c : ascii) : bool :=
  match digit_of c with Some _ => true | None => false end.

Fixpoint parse_digits (acc : Z) (cs : list ascii) : Z * list ascii :=
  match cs with
  | c :: rest =>
      match digit_of c with
      | Some d => parse_digits (10 * acc + d) rest
      | None => (acc, cs)
      end
  | [] => (acc, [])
  end.

Fixpoint parse_chars (cs : list ascii) : option (string * list ascii) :=
  match cs with
  | [] => None
  | c :: rest =>
      if Ascii.eqb c double_quote then Some (EmptyString, rest)
      else if Ascii.eqb c "\"%char then None
      else
        match parse_chars rest with
        | Some (s, rest') => Some (String c s, rest')
        | None => None
        end
  end.

Definition parse_number (negative : bool) (cs : list ascii) : JSValue * list ascii :=
  let '(n, rest) := parse_digits 0 cs in
  (JNum (if negative then (if n =? 0 then S754_zero true else ofZ (- n)) else ofZ n), rest).

Fixpoint parse_value (fuel : nat) (cs : list ascii) : option (JSValue * list ascii) :=
  match fuel with
  | O => None
  | S fuel' =>
      match skip_ws cs with
      | "n" :: "u" :: "l" :: "l" :: rest => Some (JNull, rest)
      | "t" :: "r" :: "u" :: "e" :: rest => Some (JBool true, rest)
      | "f" :: "a" :: "l" :: "s" :: "e" :: rest => Some (JBool false, rest)
      | "[" :: rest =>
          match skip_ws rest with
          | "]" :: rest' => Some (JArr [], rest')
          | _ =>
              match parse_elements fuel' rest with
              | Some (elems, rest') => Some (JArr elems, rest')
              | None => None
              end
          end
      | "{" :: rest =>
          match skip_ws rest with
          | "}" :: rest' => Some (JObj [], rest')
          | _ =>
              match parse_members fuel' rest with
              | Some (props, rest') => Some (JObj props, rest')
              | None => None
              end
          end
      | "-" :: c :: rest =>
          if is_digit c then Some (parse_number true (c :: rest)) else None
      | c :: rest =>
          if Ascii.eqb c double_quote then
            match parse_chars rest with
            | Some (s, rest') => Some (JStr s, rest')
            | None => None
            end
          else if is_digit c then Some (parse_number false (c :: rest))
          else None
      | [] => None
      end%char
  end
with parse_elements (fuel : nat) (cs : list ascii) : option (list JSValue * list ascii) :=
  match fuel with
  | O => None
  | S fuel' =>
      match parse_value fuel' cs with
      | Some (v, rest) =>
          match skip_ws rest with
          | "]" :: rest' => Some ([v], rest')
          | "," :: rest' =>
              match parse_elements fuel' rest' with
              | Some (vs, rest'') => Some (v :: vs, rest'')
              | None => None
              end
          | _ => None
          end%char
      | None => None
      end
  end
with parse_members (fuel : nat) (cs : list ascii) : option (list (string * JSValue) * list ascii) :=
  match fuel with
  | O => None
  | S fuel' =>
      match skip_ws cs with
      | c :: rest =>
          if Ascii.eqb c double_quote then
            match parse_chars rest with
            | Some (key, rest1) =>
                match skip_ws rest1 with
                | ":" :: rest2 =>
                    match parse_value fuel' rest2 with
                    | Some (v, rest3) =>
                        match skip_ws rest3 with
                        | "}" :: rest4 => Some ([(key, v)], rest4)
                        | "," :: rest4 =>
                            match parse_members fuel' rest4 with
                            | Some (props, rest5) => Some ((key, v) :: props, rest5)
                            | None => None
                            end
                        | _ => None
                        end%char
                    | None => None
                    end
                | _ => None
                end%char
            | None => None
            end
          else None
      | [] => None
      end
  end.

Definition parse (s : string) : option JSValue :=
  let cs := list_ascii_of_string s in
  match parse_value (S (length cs)) cs with
  | Some (v, rest) => match skip_ws rest with [] => Some v | _ => None end
  | None => None
  end.

Definition to_number (v : JSValue) : number :=
  match v with
  | JNum x => x
  | JNull | JBool false => zero
  | JBool true => one
  | _ => NaN
  end.

#[export] Instance builtins : Builtins := {|
  toLowerCase := lower;
  JSON_parse := parse;
  ToNumber := to_number;
  ToNumber_number := λ x, eq_refl;
|}.

(** JSON text written with apostrophes in place of double quotes. *)
Fixpoint json (s : string) : string :=
  match s with
  | EmptyString => EmptyString
  | String c rest => String (if Ascii.eqb c "'"%char then double_quote else c) (json rest)
  end.

(** A world given by canned answers: one for the extraction, and one per
    candidate name for the matcher. *)
Definition world (extraction : Response) (matcher : JSValue → Response) : World := {|
  model_answer := λ _ req,
    match req with
    | ParseBulkItemsPrompt _ => extraction
    | FindBestMatchPrompt targetItemName _ _ => matcher targetItemName
    end;
  uuid_answer := λ n, String (ascii_of_nat (97 + n)) EmptyString;
  clock_answer := λ n, ofZ (Z.of_nat n);
|}.

(** An instance of [Numerals] for the examples, on the integers of fewer
    than 20 digits: the decimal text of an integer, and the integer that a
    text of digits denotes, after a minus sign or without one.  Numbers with
    a fraction and texts of another form are outside the fragment. *)
Fixpoint digits (fuel : nat) (n : N) (text : string) : string :=
  match fuel with
  | O => text
  | S fuel' =>
      let text' := String (ascii_of_N (48 + n mod 10)) text in
      if (n / 10 =? 0)%N then text' else digits fuel' (n / 10)%N text'
  end.

Definition number_to_string (x : number) : string :=
  match x with
  | S754_zero _ => "0"
  | S754_infinity false => "Infinity"
  | S754_infinity true => "-Infinity"
  | S754_nan => "NaN"
  | S754_finite negative m e =>
      let text := digits 20 (Z.to_N (Z.shiftl (Zpos m) e)) EmptyString in
      if negative then String "-" text else text
  end.

Definition parse_float (s : string) : number :=
  match list_ascii_of_string s with
  | "-"%char :: c :: cs =>
      if is_digit c then ofZ (- (parse_digits 0 (c :: cs)).1) else NaN
  | c :: cs => if is_digit c then ofZ (parse_digits 0 (c :: cs)).1 else NaN
  | [] => NaN
  end.

#[export] Instance numerals : Numerals := {|
  Number_toString := number_to_string;
  parseFloat := parse_float;
|}.

End Demo.

(** ** Vocabulary of the statements *)

(** The value of [p.key] when reading it does not throw. *)
Definition field (p : JSValue) (key : string) : JSValue :=
  match p with
  | JObj props => lookup_prop key props
  | _ => JUndefined
  end.

(** A candidate that the loop body can process: an object whose [name] is a
    string (what the response schema of the extraction asks for). *)
Definition well_formed_candidate (p : JSValue) : Prop :=
  ∃ props s, p = JObj props ∧ lookup_prop "name" props = JStr s.

(** The extraction failed: the call was rejected, or the text it returned
    does not parse. *)
Definition extraction_failed `{Builtins} (r : Response) : Prop :=
  r = Rejects ∨ ∃ text, r = Resolves text ∧ JSON_parse (text_or text "[]") = None.

(** A text that is empty or consists of white space only. *)
Definition blank (s : string) : bool :=
  forallb isWhiteSpace (list_ascii_of_string s).

(** Two records share a name, case-insensitively. *)
Definition shares_name `{Builtins} (a b : SORItem.t) : Prop :=
  toLowerCase (SORItem.name a) = toLowerCase (SORItem.name b).

(** The status that the specification assigns: no record, [no_match]; a
    record whose name equals the requested name case-insensitively,
    [matched]; any other record, [review]. *)
Definition status_rule `{Builtins} (matchedRate : option SORItem.t) (name : JSValue)
    (status : Status) : Prop :=
  match matchedRate with
  | None => status = no_match
  | Some m =>
      ∃ s, name = JStr s ∧
        (toLowerCase (SORItem.name m) = toLowerCase s → status = matched) ∧
        (toLowerCase (SORItem.name m) ≠ toLowerCase s → status = review)
  end.

(** What [index.tsx] assigns instead: [review] for every matched record. *)
Definition review_rule (matchedRate : option SORItem.t) (name : JSValue) (status : Status) : Prop :=
  match matchedRate with
  | None => status = no_match
  | Some _ => status = review
  end.

(** The statuses a run produces, and the presence of [matchedRate]. *)
Definition status_invariant (item : TenderItem.t) : Prop :=
  (TenderItem.status item = matched ∨ TenderItem.status item = review
   ∨ TenderItem.status item = no_match)
  ∧ (TenderItem.matchedRate item = None ↔ TenderItem.status item = no_match).

Definition unmatched (item : TenderItem.t) : Prop :=
  TenderItem.status item = no_match ∧ TenderItem.matchedRate item = None.

(** The quantity [result] of an item, given the quantity [q] of its
    candidate: a positive or negative number is kept, and so is every other
    truthy value; an absent quantity, [null], a zero and NaN give 1, and so
    does every other falsy value. *)
Definition quantity_rule (q result : JSValue) : Prop :=
  (∀ x, q = JNum x → js_lt zero x = true ∨ js_lt x zero = true → result = JNum x)
  ∧ (q = JUndefined ∨ q = JNull ∨ (∃ x, q = JNum x ∧ (js_eq x zero = true ∨ is_nan x = true)) →
     result = JNum one)
  ∧ (truthy q = true → result = q)
  ∧ (truthy q = false → result = JNum one).

(** What both orchestrators copy from a candidate [p] into its item. *)
Definition copies_candidate (sorData : list SORItem.t) (p : JSValue) (item : TenderItem.t) : Prop :=
  TenderItem.name item = field p "name"
  ∧ TenderItem.quantity item = js_or (field p "quantity") (JNum one)
  ∧ TenderItem.requestedScope item = field p "requestedScope"
  ∧ TenderItem.estimatedRate item = field p "estimatedRate"
  ∧ (∀ m, TenderItem.matchedRate item = Some m → In m sorData).

Definition not_matcher_call (ev : Event) : Prop := is_matcher_call ev = false.

(** The postcondition of one turn of the loop on the candidate [p]. *)
Definition body_post (sorData : list SORItem.t) (p : JSValue)
    (rule : option SORItem.t → JSValue → Status → Prop)
    (t : list Event) (c : Completion TenderItem.t) : Prop :=
  (sorData = [] → Forall not_matcher_call t)
  ∧ (well_formed_candidate p → ∃ item, c = Normal item)
  ∧ match c with
    | Normal item =>
        copies_candidate sorData p item
        ∧ rule (TenderItem.matchedRate item) (TenderItem.name item) (TenderItem.status item)
    | Abrupt _ => True
    end.

(** The state in which a run of the orchestrator ends when it stores [results]. *)
Definition finished (st : TenderProcessor.state) (results : list TenderItem.t)
    : TenderProcessor.state :=
  TenderProcessor.setProcessing false
    (TenderProcessor.setItems results (TenderProcessor.setProcessing true st)).

(** The program that both orchestrators run once past their guards. *)
Definition pipeline `{Builtins} (body : JSValue → Prog TenderItem.t)
    (st : TenderProcessor.state) : Prog TenderProcessor.state :=
  parsed ← parseBulkItems (TenderProcessor.inputText st);
  candidates ← iterate parsed;
  results ← for_of body candidates [];
  mret (finished st results).

Definition extraction_event (st : TenderProcessor.state) : Event :=
  EvGenerateContent (ParseBulkItemsPrompt (TenderProcessor.inputText st)).

(** A run that performs no event and ends with an empty item list. *)
Definition builds_nothing (r : list Event * Completion TenderProcessor.state) : Prop :=
  r.1 = [] ∧ ∃ st', r.2 = Normal st' ∧ TenderProcessor.items st' = [].

(** The statuses, the quantities and the line amounts of the items a run
    ends with. *)
Definition statuses_of (r : list Event * Completion TenderProcessor.state)
    : option (list Status) :=
  match r.2 with
  | Normal st' => Some (TenderItem.status <$> TenderProcessor.items st')
  | Abrupt _ => None
  end.

Definition quantities_of (r : list Event * Completion TenderProcessor.state)
    : option (list JSValue) :=
  match r.2 with
  | Normal st' => Some (TenderItem.quantity <$> TenderProcessor.items st')
  | Abrupt _ => None
  end.

Definition amounts_of `{Builtins} (r : list Event * Completion TenderProcessor.state)
    : option (list number) :=
  match r.2 with
  | Normal st' => Some (lineAmount <$> TenderProcessor.items st')
  | Abrupt _ => None
  end.

(** The five fields of the form, as a record carries them. *)
Definition carries (item : RateFields.t) (r : SORItem.t) : Prop :=
  SORItem.name r = RateFields.name item
  ∧ SORItem.unit r = RateFields.unit item
  ∧ SORItem.rate r = RateFields.rate item
  ∧ SORItem.scopeOfWork r = RateFields.scopeOfWork item
  ∧ SORItem.source r = RateFields.source item.

(** The binary64 representation of a positive integer below [2^53]: the
    mantissa is shifted to 53 digits. *)
Definition canon (s : bool) (c : positive) : number :=
  let d := Zpos (digits2_pos c) in
  S754_finite s (Z.to_pos (Zpos c * 2 ^ (53 - d))) (d - 53).

(** The exact sum of a list of naturals. *)
Definition N_sum (l : list N) : N := fold_right N.add 0%N l.

(** An item whose quantity is the natural [q] and whose matched rate, or 0
    when there is none, is the natural [r]. *)
Definition natural_line (item : TenderItem.t) (q r : N) : Prop :=
  TenderItem.quantity item = JNum (ofN q)
  ∧ match TenderItem.matchedRate item with
    | Some record => SORItem.rate record = ofN r
    | None => r = 0%N
    end.

(** The natural that a number denotes, when it denotes one. *)
Definition N_of_number (x : number) : N :=
  match x with
  | S754_finite false m e => Z.to_N (Z.shiftl (Zpos m) e)
  | _ => 0%N
  end.

Definition natural_quantity (item : TenderItem.t) : N :=
  match TenderItem.quantity item with
  | JNum x => N_of_number x
  | _ => 0%N
  end.

Definition natural_rate (item : TenderItem.t) : N :=
  match TenderItem.matchedRate item with
  | Some record => N_of_number (SORItem.rate record)
  | None => 0%N
  end.

(** The ids of the catalog, in its order. *)
Definition catalog_ids (st : App.state) : list string := SORItem.id <$> App.sorData st.

(** The record that [new_record] builds from the answers [id] and [timestamp]. *)
Definition stamped (item : RateFields.t) (id : string) (timestamp : number) : SORItem.t :=
  SORItem.mk id
    (RateFields.name item) (RateFields.unit item) (RateFields.rate item)
    (RateFields.scopeOfWork item) (RateFields.source item) timestamp.

(** The records that a bulk import builds when it starts after [n] events:
    the item at position [i] takes the answers to the events [n + 2i] and
    [n + 2i + 1]. *)
Fixpoint imported (w : World) (n : nat) (items : list RateFields.t) : list SORItem.t :=
  match items with
  | [] => []
  | item :: rest =>
      stamped item (uuid_answer w n) (clock_answer w (S n)) :: imported w (S (S n)) rest
  end.

(** The events of a bulk import: an id and a time per item. *)
Definition import_events (items : list RateFields.t) : list Event :=
  mjoin ((λ _, [EvRandomUUID; EvDateNow]) <$> items).

(** The time of a record in milliseconds, when its timestamp is a natural
    below [2^53], as [Date.now()] gives it. *)
Definition clocked (ms : SORItem.t → N) (r : SORItem.t) : Prop :=
  SORItem.timestamp r = ofN (ms r) ∧ (ms r < 2 ^ 53)%N.

(** [s] holds [q] as a run of consecutive characters. *)
Definition contains (s q : string) : Prop :=
  ∃ before after, s = (before ++ q ++ after)%string.

(** Values that [for ... of] accepts, and values whose properties cannot be
    read. *)
Definition iterable (v : JSValue) : bool :=
  match v with JArr _ | JStr _ => true | _ => false end.

Definition nullish (v : JSValue) : bool :=
  match v with JUndefined | JNull => true | _ => false end.

(** What the extraction returned cannot be turned into items: it is not
    iterable, or one of its elements is [null] or [undefined]. *)
Definition not_a_candidate_list (parsed : JSValue) : Prop :=
  iterable parsed = false
  ∨ ∃ candidates, iterate parsed = Ret candidates ∧ existsb nullish candidates = true.

Definition only_TypeError {A : Type} (c : Completion A) : Prop :=
  match c with Normal _ => True | Abrupt e => e = TypeError end.

(** The events of one turn of the loop on the candidate [p]: the call of
    the matcher, unless the catalog is empty, then the draw of the item's id. *)
Definition turn_events (sorData : list SORItem.t) (p : JSValue) : list Event :=
  (if (length sorData =? 0)%nat then []
   else [EvGenerateContent
           (FindBestMatchPrompt (field p "name") (field p "requestedScope")
              (dbItems_of sorData))])
  ++ [EvRandomUUID].

Definition turn_post (sorData : list SORItem.t) (p : JSValue)
    (t : list Event) (c : Completion TenderItem.t) : Prop :=
  t = turn_events sorData p ∧ ∃ item, c = Normal item.

(** What both orchestrators carry over from a candidate into its item
    without a change. *)
Definition carried_over (p : JSValue) (item : TenderItem.t) : Prop :=
  TenderItem.name item = field p "name"
  ∧ TenderItem.requestedScope item = field p "requestedScope"
  ∧ TenderItem.estimatedRate item = field p "estimatedRate".

(** The items of a given status, counted. *)
Definition has_status (status : Status) (item : TenderItem.t) : bool :=
  match status, TenderItem.status item with
  | pending, pending | matched, matched | review, review | no_match, no_match => true
  | _, _ => false
  end.

Definition count_status (status : Status) (items : list TenderItem.t) : nat :=
  length (List.filter (has_status status) items).

(** Numbers that are neither infinite nor NaN. *)
Definition is_finite (x : number) : bool :=
  match x with S754_zero _ | S754_finite _ _ _ => true | _ => false end.

(** A line without a price: no matched record, or a matched record whose
    rate is zero or NaN. *)
Definition unpriced (item : TenderItem.t) : Prop :=
  match TenderItem.matchedRate item with
  | Some r => number_truthy (SORItem.rate r) = false
  | None => True
  end.

(** The result of [checkScopeMatch] on a failure, and a result whose three
    fields are present: none is [null] or [undefined]. *)
Definition scope_error : JSValue :=
  JObj [("isMatch", JBool false); ("confidence", JNum zero);
        ("reason", JStr "Error validating scope.")].

Definition complete_result (v : JSValue) : Prop :=
  ∃ isMatch confidence reason,
    v = JObj [("isMatch", isMatch); ("confidence", confidence); ("reason", reason)]
    ∧ nullish isMatch = false ∧ nullish confidence = false ∧ nullish reason = false.

(** The text of a cell, of a cell as it is written, and of a row as it is
    written. *)
Definition cell_text `{Numerals} (cell : JSValue) : list N :=
  code_units match cell with
             | JNull | JUndefined => EmptyString
             | _ => ToString cell
             end.

Definition csv_cell `{Numerals} (cell : JSValue) : string :=
  String dquote
    (double_quotes match cell with
                   | JNull | JUndefined => EmptyString
                   | _ => ToString cell
                   end ++ String dquote EmptyString).

Definition csv_row `{Numerals} (row : list JSValue) : string :=
  String.concat "," (map csv_cell row).

(** A reader of comma-separated values in the format of RFC 4180, for files
    in which every field is quoted: a field is enclosed in double quotes, a
    double quote inside a field is written twice, fields are separated by
    commas and records by CR LF; the last record may end the file or be
    followed by CR LF. *)
Inductive ReaderState : Type := AtField | InField | AfterQuote | AfterCR.

Fixpoint read_fields (state : ReaderState) (field : list N) (record : list (list N))
    (records : list (list (list N))) (units : list N) : option (list (list (list N))) :=
  match units with
  | [] =>
      match state with
      | AtField => match record with [] => Some records | _ => None end
      | AfterQuote => Some (records ++ [record ++ [field]])
      | InField | AfterCR => None
      end
  | u :: rest =>
      match state with
      | AtField =>
          if (u =? 34)%N then read_fields InField [] record records rest else None
      | InField =>
          if (u =? 34)%N then read_fields AfterQuote field record records rest
          else read_fields InField (field ++ [u]) record records rest
      | AfterQuote =>
          if (u =? 34)%N then read_fields InField (field ++ [u]) record records rest
          else if (u =? 44)%N then read_fields AtField [] (record ++ [field]) records rest
          else if (u =? 13)%N then read_fields AfterCR [] (record ++ [field]) records rest
          else None
      | AfterCR =>
          if (u =? 10)%N then read_fields AtField [] [] (records ++ [record]) rest else None
      end
  end.

(** A byte order mark at the start of the file is skipped. *)
Definition read_csv (file : list N) : option (list (list (list N))) :=
  match file with
  | u :: rest =>
      if (u =? BOM)%N then read_fields AtField [] [] [] rest
      else read_fields AtField [] [] [] file
  | [] => Some []
  end.

(** ** Data of the examples *)

(** The decimal literal [n/d], correctly rounded. *)
Definition ratio (n d : Z) : number := SFdiv prec emax (ofZ n) (ofZ d).

(** A catalog record with the given id, name and rate. *)
Definition record (id name : string) (rate : number) : SORItem.t :=
  SORItem.mk id name "m3" rate "scope" "source" zero.

(** A tender item of the given quantity, matched with a record of the given rate. *)
Definition priced (quantity rate : number) : TenderItem.t :=
  TenderItem.mk "id" (JStr "item") (JNum quantity) (JStr "scope") JUndefined
    (Some (record "A" "item" rate)) review.

Definition excavation : list SORItem.t :=
  [record "A" "Excavation" (ofZ 100); record "B" "Excavation" (ofZ 80)].

Definition pipes : list SORItem.t := [record "P" "GI Pipe 25mm" (ofZ 120)].

Definition pasted (text : string) : TenderProcessor.state :=
  TenderProcessor.mk text [] false.

Definition empty_app : App.state := App.mk database [] false None "".

(** The form is open on the record "B" of the excavation catalog. *)
Definition editing_B : App.state :=
  App.mk database excavation true (Some (record "B" "Excavation" (ofZ 80))) "".

Definition trenching : RateFields.t :=
  RateFields.mk "Trenching" "m" (ofZ 75) "by hand" "quote 7".

(** The extraction answers with the given JSON text (written with
    apostrophes), and the matcher always answers with the given id. *)
Definition answering (extracted matchedId : string) : World :=
  Demo.world (Resolves (Some (Demo.json extracted)))
    (λ _, Resolves (Some (Demo.json ("{'matchedId':'" ++ matchedId ++ "'}")))).

(** The language model rejects every call. *)
Definition offline : World := Demo.world Rejects (λ _, Rejects).

(** A tender item of the given quantity without a matched record. *)
Definition unmatched_line (quantity : number) : TenderItem.t :=
  TenderItem.mk "id" (JStr "item") (JNum quantity) (JStr "scope") JUndefined None no_match.

(** A catalog record with the given id, name and time. *)
Definition dated (id name : string) (timestamp : Z) : SORItem.t :=
  SORItem.mk id name "m3" (ofZ 100) "scope" "source" (ofZ timestamp).

Definition dated_catalog : list SORItem.t :=
  [dated "A" "Excavation" 1000; dated "B" "Brickwork" 3000; dated "C" "Excavation" 3000;
   dated "D" "Plaster" 2000].

(** The catalog is open on the excavation records, no record being edited. *)
Definition browsing : App.state := App.mk database excavation false None "".

Definition brickwork : RateFields.t :=
  RateFields.mk "Brickwork" "m3" (ofZ 4200) "230 mm wall" "quote 9".

(** The rate form as it is mounted. *)
Definition blank_form : RateForm.state :=
  RateForm.mk RateForm.single false "" (JArr []) (RateForm.mkFormData "" "" "" "" "").

(** A table with a comma, a double quote, a line break, a number and [null]
    in its cells. *)
Definition awkward_table : list (list JSValue) :=
  [[JStr "Pipe, 25mm"; JStr (String dquote "GI" ++ String dquote " pipe"); JNum (ofZ 120)];
   [JStr (String CR (String LF "next")); JNull; JStr ""]].

(** * Properties *)

Ltac unfold_prog :=
  unfold mbind, mret, Prog_bind, Prog_ret, generateContent, randomUUID, now,
    json_parse, get in *.

Ltac destruct_run :=
  match goal with
  | |- context [match (run ?w ?n ?p).2 with _ => _ end] =>
      let t := fresh "t" in let st' := fresh "st'" in let e := fresh "e" in
      destruct (run w n p) as [t [st'|e]]; simpl in *
  end.

Ltac float_cases :=
  repeat match goal with
  | x : number |- _ => destruct x as [[]|[]| |[] ? ?]
  end.

Ltac compare_cases :=
  repeat match goal with
  | H : context [Z.compare ?a ?b] |- _ => destruct (Z.compare_spec a b); simpl in H
  | |- context [Z.compare ?a ?b] => destruct (Z.compare_spec a b); simpl
  | H : context [Pos.compare_cont Eq ?a ?b] |- _ =>
      change (Pos.compare_cont Eq a b) with (Pos.compare a b) in H;
      destruct (Pos.compare_spec a b); simpl in H
  | |- context [Pos.compare_cont Eq ?a ?b] =>
      change (Pos.compare_cont Eq a b) with (Pos.compare a b);
      destruct (Pos.compare_spec a b); simpl
  end.

Ltac float_order :=
  unfold js_le, js_lt, js_eq, SFleb, SFltb, SFeqb, SFcompare, Infinity, zero in *;
  float_cases; simpl in *; try done; compare_cases; subst; try done; try lia.

(** ** Runs of programs *)

Section Runs.
Context {A B : Type}.

Lemma run_bind (w : World) (p : Prog A) (f : A → Prog B) : ∀ n,
  run w n (p ≫= f) =
  match (run w n p).2 with
  | Normal a =>
      let r := run w (n + length (run w n p).1) (f a) in
      ((run w n p).1 ++ r.1, r.2)
  | Abrupt e => ((run w n p).1, Abrupt e)
  end.
Proof.
  unfold mbind, Prog_bind.
  induction p as [a|e|req k IH|k IH|k IH]; intros n; simpl.
  - rewrite Nat.add_0_r. by destruct (run w n (f a)).
  - done.
  - rewrite IH. destruct (run w (S n) (k _)) as [t [a|e]]; simpl; [|done].
    by rewrite Nat.add_succ_r.
  - rewrite IH. destruct (run w (S n) (k _)) as [t [a|e]]; simpl; [|done].
    by rewrite Nat.add_succ_r.
  - rewrite IH. destruct (run w (S n) (k _)) as [t [a|e]]; simpl; [|done].
    by rewrite Nat.add_succ_r.
Qed.

Lemma wp_run (p : Prog A) : ∀ Q, wp p Q → ∀ w n, Q (run w n p).1 (run w n p).2.
Proof.
  induction p as [a|e|req k IH|k IH|k IH]; simpl; intros Q HQ w n; try done.
  all: apply (IH _ _ (HQ _)).
Qed.

Lemma wp_mono (p : Prog A) : ∀ (Q Q' : list Event → Completion A → Prop),
  (∀ t c, Q t c → Q' t c) → wp p Q → wp p Q'.
Proof.
  induction p as [a|e|req k IH|k IH|k IH]; simpl; intros Q Q' HQQ HQ; eauto.
  all: intros r; eapply IH; [|apply HQ]; simpl; eauto.
Qed.

Lemma wp_bind (p : Prog A) (f : A → Prog B) : ∀ Q,
  wp p (λ t c, match c with
               | Normal a => wp (f a) (λ t' c', Q (t ++ t') c')
               | Abrupt e => Q t (Abrupt e)
               end) →
  wp (p ≫= f) Q.
Proof.
  unfold mbind, Prog_bind.
  induction p as [a|e|req k IH|k IH|k IH]; simpl; intros Q HQ; try done.
  all: intros r; apply IH; eapply wp_mono; [|apply HQ]; by intros t [a|e].
Qed.

End Runs.

(** ** The service *)

Section ServiceFacts.
Context `{Builtins}.

(** The matcher never throws; against an empty catalog it answers [null]
    without an event. *)
Lemma findBestMatchingItem_wp (targetItemName targetScope : JSValue) (dbItems : list DbItem) :
  wp (findBestMatchingItem targetItemName targetScope dbItems)
     (λ t c, (∃ v, c = Normal v)
             ∧ (dbItems = [] → t = [] ∧ c = Normal JNull)
             ∧ (dbItems ≠ [] →
                t = [EvGenerateContent (FindBestMatchPrompt targetItemName targetScope dbItems)])).
Proof.
  unfold findBestMatchingItem. destruct dbItems as [|d dbItems]; simpl.
  { split_and!; eauto. done. }
  unfold_prog. simpl. intros [|text]; simpl.
  { split_and!; eauto. done. }
  destruct (JSON_parse _) as [[]|]; simpl; split_and!; eauto; done.
Qed.

(** The extraction never throws and makes exactly one call. *)
Lemma parseBulkItems_run (w : World) (n : nat) (text : string) :
  ∃ parsed,
    run w n (parseBulkItems text)
    = ([EvGenerateContent (ParseBulkItemsPrompt text)], Normal parsed)
    ∧ (extraction_failed (model_answer w n (ParseBulkItemsPrompt text)) → parsed = JArr []).
Proof.
  unfold parseBulkItems, extraction_failed. unfold_prog. simpl.
  destruct (model_answer w n _) as [|text']; simpl.
  { eexists; split; [done|]. done. }
  destruct (JSON_parse (text_or text' "[]")) as [v|] eqn:Hparse; simpl.
  - eexists; split; [done|]. intros [?|(? & [= <-] & ?)]; congruence.
  - eexists; split; [done|]. done.
Qed.

End ServiceFacts.

(** ** The orchestrator: loop body, loop and whole run *)

Section Orchestrator.
Context `{Builtins}.

Lemma find_by_id_In sorData matchedId m :
  find_by_id sorData matchedId = Some m → In m sorData.
Proof. unfold find_by_id. intros Hm. by apply find_some in Hm as [? _]. Qed.

Lemma get_field (p : JSValue) (key : string) :
  p ≠ JUndefined → p ≠ JNull → get p key = Ret (field p key).
Proof. by destruct p. Qed.

Lemma nullish_cases (p : JSValue) :
  p = JUndefined ∨ p = JNull ∨ (p ≠ JUndefined ∧ p ≠ JNull).
Proof. destruct p; auto. Qed.

Lemma dbItems_of_nil sorData : dbItems_of sorData = [] ↔ sorData = [].
Proof. by destruct sorData. Qed.

Lemma body_post_throw sorData p rule e :
  p = JUndefined ∨ p = JNull → body_post sorData p rule [] (Abrupt e).
Proof.
  intros Hp. split_and!; [by constructor| |done].
  intros (props & s & -> & _). by destruct Hp.
Qed.

Lemma IndexV2_body_wp sorData p :
  wp (IndexV2.handleProcess_body sorData p) (body_post sorData p status_rule).
Proof.
  unfold IndexV2.handleProcess_body.
  destruct (nullish_cases p) as [-> | [-> | [Hp1 Hp2]]];
    [simpl; apply body_post_throw; auto..|].
  rewrite !get_field by done. simpl.
  apply wp_bind. eapply wp_mono; [|apply findBestMatchingItem_wp].
  intros t c ([matchedId ->] & Hnil & Hcons). simpl. intros u.
  assert (sorData = [] → Forall not_matcher_call (t ++ [EvRandomUUID])) as Htrace.
  { intros Hs. destruct Hnil as [-> _]; [by apply dbItems_of_nil|]. by repeat constructor. }
  destruct (find_by_id sorData matchedId) as [m|] eqn:Hfind; simpl.
  - destruct (field p "name") as [| | | |s| |] eqn:Hname; simpl.
    all: try (split_and!; [done| |done]; intros (? & ? & -> & ?); simpl in Hname; congruence).
    split_and!; [done|by eexists|..]; simpl.
    + unfold copies_candidate; simpl. split_and!; try done.
      intros m' [= <-]. by eapply find_by_id_In.
    + exists s. split; [done|]. split; intros Hs.
      * by rewrite Hs, String.eqb_refl.
      * apply String.eqb_neq in Hs. by rewrite Hs.
  - split_and!; [done|by eexists|..]; simpl; [|done].
    unfold copies_candidate; simpl. split_and!; done.
Qed.

Lemma Index_body_wp sorData p :
  wp (Index.handleProcess_body sorData p) (body_post sorData p review_rule).
Proof.
  unfold Index.handleProcess_body.
  destruct (nullish_cases p) as [-> | [-> | [Hp1 Hp2]]];
    [simpl; apply body_post_throw; auto..|].
  rewrite !get_field by done. simpl.
  apply wp_bind. eapply wp_mono; [|apply findBestMatchingItem_wp].
  intros t c ([matchedId ->] & Hnil & Hcons). simpl. intros u.
  assert (sorData = [] → Forall not_matcher_call (t ++ [EvRandomUUID])) as Htrace.
  { intros Hs. destruct Hnil as [-> _]; [by apply dbItems_of_nil|]. by repeat constructor. }
  split_and!; [done|by eexists|..]; simpl.
  - unfold copies_candidate; simpl. split_and!; try done.
    intros m'. apply find_by_id_In.
  - unfold review_rule. by destruct (find_by_id sorData matchedId).
Qed.

Lemma for_of_wp (body : JSValue → Prog TenderItem.t)
    (T : Event → Prop) (G : JSValue → Prop) (I : JSValue → TenderItem.t → Prop) :
  (∀ p, wp (body p) (λ t c,
     Forall T t ∧ (G p → ∃ item, c = Normal item)
     ∧ match c with Normal item => I p item | Abrupt _ => True end)) →
  ∀ parsed results,
    wp (for_of body parsed results) (λ t c,
      Forall T t ∧ (Forall G parsed → ∃ items, c = Normal items)
      ∧ match c with
        | Normal items => ∃ new, items = results ++ new ∧ Forall2 I parsed new
        | Abrupt _ => True
        end).
Proof.
  intros Hbody. induction parsed as [|p parsed IH]; intros results; simpl.
  { split_and!; [done|eauto|]. exists []. by rewrite app_nil_r. }
  apply wp_bind. eapply wp_mono; [|apply Hbody].
  intros t [item|e] (Ht & HG & HI); simpl.
  - eapply wp_mono; [|apply IH]. intros t' c' (Ht' & HG' & HI'). split_and!.
    + by apply Forall_app.
    + intros HGs. apply HG'. by eapply Forall_inv_tail.
    + destruct c' as [items|]; [|done]. destruct HI' as (new & -> & Hnew).
      exists (item :: new). split; [by rewrite <-app_assoc|]. by constructor.
  - split_and!; [done| |done]. intros HGs. apply Forall_inv in HGs.
    destruct (HG HGs) as [? ?]; done.
Qed.

Lemma iterate_cases (parsed : JSValue) :
  (∃ candidates, iterate parsed = Ret candidates) ∨ iterate parsed = Throw TypeError.
Proof. destruct parsed; simpl; eauto. Qed.

Lemma orchestrate_run {S : Type} (body : JSValue → Prog TenderItem.t)
    (finish : list TenderItem.t → S)
    (T : Event → Prop) (G : JSValue → Prop) (I : JSValue → TenderItem.t → Prop)
    (w : World) (text : string) :
  (∀ p, wp (body p) (λ t c,
     Forall T t ∧ (G p → ∃ item, c = Normal item)
     ∧ match c with Normal item => I p item | Abrupt _ => True end)) →
  let r := run w 0 (parsed ← parseBulkItems text;
                    candidates ← iterate parsed;
                    results ← for_of body candidates [];
                    mret (finish results)) in
  ∃ parsed,
    run w 0 (parseBulkItems text)
    = ([EvGenerateContent (ParseBulkItemsPrompt text)], Normal parsed)
    ∧ (∃ t, r.1 = EvGenerateContent (ParseBulkItemsPrompt text) :: t ∧ Forall T t)
    ∧ (∀ candidates, iterate parsed = Ret candidates → Forall G candidates →
         ∃ items, r.2 = Normal (finish items))
    ∧ match r.2 with
      | Normal st' =>
          ∃ candidates items,
            iterate parsed = Ret candidates ∧ st' = finish items
            ∧ Forall2 I candidates items
      | Abrupt _ => True
      end.
Proof.
  intros Hbody r. subst r.
  destruct (parseBulkItems_run w 0 text) as (parsed & Hrun & _).
  exists parsed. split; [done|].
  rewrite run_bind, Hrun. simpl.
  destruct (iterate_cases parsed) as [[candidates Hit]| Hit]; rewrite Hit.
  2: { simpl. split_and!; [by exists []|done|done]. }
  rewrite run_bind. simpl. rewrite run_bind.
  pose proof (wp_run _ _ (for_of_wp body T G I Hbody candidates []) w 1%nat)
    as (Ht & HG & HI).
  destruct (run w 1 (for_of body candidates [])) as [t [items|e]]; simpl in *.
  - rewrite app_nil_r. split_and!; eauto.
    destruct HI as (new & -> & Hnew). eauto.
  - split_and!; eauto. intros ? [= <-] HGs. destruct (HG HGs) as [? ?]; done.
Qed.

End Orchestrator.

(** ** The orchestrators *)

Section Claims.
Context `{Builtins}.

Lemma Index_handleProcess_pipeline sorData st :
  Index.handleProcess sorData st = pipeline (Index.handleProcess_body sorData) st.
Proof. done. Qed.

Lemma IndexV2_handleProcess_pipeline sorData st :
  string_truthy (trim (TenderProcessor.inputText st)) = true →
  IndexV2.handleProcess sorData st = pipeline (IndexV2.handleProcess_body sorData) st.
Proof. unfold IndexV2.handleProcess. by intros ->. Qed.

Lemma IndexV2_handleProcess_blank sorData st :
  string_truthy (trim (TenderProcessor.inputText st)) = false →
  IndexV2.handleProcess sorData st = Ret st.
Proof. unfold IndexV2.handleProcess. by intros ->. Qed.

Lemma pipeline_run body rule sorData st w :
  (∀ p, wp (body p) (body_post sorData p rule)) →
  let r := run w 0 (pipeline body st) in
  ∃ parsed,
    run w 0 (parseBulkItems (TenderProcessor.inputText st))
    = ([extraction_event st], Normal parsed)
    ∧ (sorData = [] → Forall not_matcher_call r.1)
    ∧ (∀ candidates, iterate parsed = Ret candidates →
         Forall well_formed_candidate candidates → ∃ items, r.2 = Normal (finished st items))
    ∧ match r.2 with
      | Normal st' =>
          ∃ candidates items,
            iterate parsed = Ret candidates ∧ st' = finished st items
            ∧ Forall2 (λ p item,
                copies_candidate sorData p item
                ∧ rule (TenderItem.matchedRate item) (TenderItem.name item)
                    (TenderItem.status item))
                candidates items
      | Abrupt _ => True
      end.
Proof.
  intros Hbody r. subst r. unfold pipeline.
  destruct (orchestrate_run body (finished st)
    (λ ev, sorData = [] → not_matcher_call ev) well_formed_candidate
    (λ p item, copies_candidate sorData p item
       ∧ rule (TenderItem.matchedRate item) (TenderItem.name item)
           (TenderItem.status item))
    w (TenderProcessor.inputText st)) as (parsed & Hrun & (t & Ht & HT) & Htotal & Hitems).
  { intros p. eapply wp_mono; [|apply Hbody].
    intros t c (Ht & Hc & Hi). split_and!; [|done..].
    apply Forall_forall. intros ev Hev Hs. by eapply Forall_forall in Ht. }
  exists parsed. split; [done|]. split_and!; [|done..].
  intros Hs. rewrite Ht. constructor; [done|]. eapply Forall_impl; [apply HT|]. auto.
Qed.


Lemma positive_or_negative_truthy (x : number) :
  js_lt zero x = true ∨ js_lt x zero = true → number_truthy x = true.
Proof. unfold js_lt, SFltb, SFcompare, zero. destruct x as [[]|[]| |[] ? ?]; simpl; intros [?|?]; done. Qed.

Lemma zero_or_nan_falsy (x : number) :
  js_eq x zero = true ∨ is_nan x = true → number_truthy x = false.
Proof. unfold js_eq, SFeqb, SFcompare, zero. destruct x as [[]|[]| |[] ? ?]; simpl; intros [?|?]; done. Qed.

Lemma js_or_quantity_rule (q : JSValue) : quantity_rule q (js_or q (JNum one)).
Proof.
  unfold quantity_rule, js_or. split_and!.
  - intros x -> Hx. simpl. by rewrite positive_or_negative_truthy.
  - intros [-> | [-> | (x & -> & Hx)]]; simpl; [done..|]. by rewrite zero_or_nan_falsy.
  - by intros ->.
  - by intros ->.
Qed.

Lemma blank_trimStart (s : string) : blank s = true → trimStart s = EmptyString.
Proof.
  unfold blank. induction s as [|c s IH]; simpl; [done|].
  intros [Hc Hs]%andb_prop. rewrite Hc. auto.
Qed.

Lemma blank_trim (s : string) : blank s = true → string_truthy (trim s) = false.
Proof. intros Hs. unfold trim. by rewrite blank_trimStart. Qed.

(** C5.  On a text that is empty or consists of white space only, the
    quotation build performs no event (no extraction, no matching) and ends
    with the empty item list, whatever the catalog: in the later variant
    [handleProcess] returns at once; in both variants the "Build Quote"
    button is disabled, so that a click does not run the handler.  The build
    form is on display only while the item list is empty. *)
Theorem blank_text_builds_nothing (w : World) (n : nat)
    (sorData : list SORItem.t) (st : TenderProcessor.state) :
  blank (TenderProcessor.inputText st) = true →
  TenderProcessor.items st = [] →
  builds_nothing (run w n (IndexV2.handleProcess sorData st))
  ∧ builds_nothing (run w n (IndexV2.buildQuote_click sorData st))
  ∧ builds_nothing (run w n (Index.buildQuote_click sorData st)).
Proof.
  intros Hblank%blank_trim Hitems.
  assert (builds_nothing ([], Normal st)) as Hnothing.
  { split; [done|]. by exists st. }
  split_and!.
  - by rewrite IndexV2_handleProcess_blank.
  - unfold IndexV2.buildQuote_click, IndexV2.buildQuote_disabled.
    rewrite Hblank. simpl. by rewrite orb_true_r, andb_false_r.
  - unfold Index.buildQuote_click, Index.buildQuote_disabled.
    rewrite Hblank. simpl. by rewrite orb_true_r, andb_false_r.
Qed.

(** The failures that the try/catch of [parseBulkItems] covers.  When the
    extraction call is rejected, or returns a text that [JSON.parse]
    rejects, [parseBulkItems] yields the empty array after its single call,
    and both orchestrators end normally with the empty item list: no
    exception leaves [handleProcess].  (The later variant reaches the
    extraction only on a text that is not blank.)  An answer that parses to
    something else than a list of candidates is not among these failures. *)
Theorem extraction_failure_gives_empty_quotation (w : World)
    (sorData : list SORItem.t) (st : TenderProcessor.state) :
  extraction_failed (model_answer w 0 (ParseBulkItemsPrompt (TenderProcessor.inputText st))) →
  run w 0 (parseBulkItems (TenderProcessor.inputText st))
  = ([extraction_event st], Normal (JArr []))
  ∧ run w 0 (Index.handleProcess sorData st)
    = ([extraction_event st], Normal (TenderProcessor.mk (TenderProcessor.inputText st) [] false))
  ∧ (string_truthy (trim (TenderProcessor.inputText st)) = true →
     run w 0 (IndexV2.handleProcess sorData st)
     = ([extraction_event st], Normal (TenderProcessor.mk (TenderProcessor.inputText st) [] false))).
Proof.
  intros Hfail.
  destruct (parseBulkItems_run w 0 (TenderProcessor.inputText st)) as (parsed & Hrun & Hempty).
  rewrite (Hempty Hfail) in Hrun. split; [done|].
  assert (∀ body, run w 0 (pipeline body st)
    = ([extraction_event st], Normal (TenderProcessor.mk (TenderProcessor.inputText st) [] false)))
    as Hpipe.
  { intros body. unfold pipeline. rewrite run_bind, Hrun. done. }
  split.
  - by rewrite Index_handleProcess_pipeline.
  - intros Hnb. by rewrite IndexV2_handleProcess_pipeline.
Qed.

Lemma Forall2_right_Forall {X Y : Type} (R : X → Y → Prop) (P : Y → Prop) xs ys :
  (∀ x y, R x y → P y) → Forall2 R xs ys → Forall P ys.
Proof. intros HRP HR. induction HR; constructor; eauto. Qed.

(** What holds of every pair of a candidate and its item holds of every
    item that a run stores. *)
Lemma Index_items_satisfy (P : TenderItem.t → Prop) (w : World)
    (sorData : list SORItem.t) (st : TenderProcessor.state) :
  (∀ p item,
     copies_candidate sorData p item
     ∧ review_rule (TenderItem.matchedRate item) (TenderItem.name item) (TenderItem.status item) →
     P item) →
  match (run w 0 (Index.handleProcess sorData st)).2 with
  | Normal st' => Forall P (TenderProcessor.items st')
  | Abrupt _ => True
  end.
Proof.
  intros HP. rewrite Index_handleProcess_pipeline.
  destruct (pipeline_run _ _ sorData st w (Index_body_wp sorData)) as (parsed & _ & _ & _ & HI).
  destruct_run; [|done].
  destruct HI as (candidates & items & _ & -> & HI). simpl.
  eapply Forall2_right_Forall; [|done]. eauto.
Qed.

(** The later variant leaves the state alone on a blank text: the property
    is stated from a state without items, the only one in which the build
    form is on display. *)
Lemma IndexV2_items_satisfy (P : TenderItem.t → Prop) (w : World)
    (sorData : list SORItem.t) (st : TenderProcessor.state) :
  (∀ p item,
     copies_candidate sorData p item
     ∧ status_rule (TenderItem.matchedRate item) (TenderItem.name item) (TenderItem.status item) →
     P item) →
  TenderProcessor.items st = [] →
  match (run w 0 (IndexV2.handleProcess sorData st)).2 with
  | Normal st' => Forall P (TenderProcessor.items st')
  | Abrupt _ => True
  end.
Proof.
  intros HP Hitems.
  destruct (string_truthy (trim (TenderProcessor.inputText st))) eqn:Hnb.
  2: { rewrite IndexV2_handleProcess_blank by done. simpl. by rewrite Hitems. }
  rewrite IndexV2_handleProcess_pipeline by done.
  destruct (pipeline_run _ _ sorData st w (IndexV2_body_wp sorData)) as (parsed & _ & _ & _ & HI).
  destruct_run; [|done].
  destruct HI as (candidates & items & _ & -> & HI). simpl.
  eapply Forall2_right_Forall; [|done]. eauto.
Qed.

Lemma empty_catalog_item_unmatched (rule : option SORItem.t → JSValue → Status → Prop)
    (p : JSValue) (item : TenderItem.t) :
  (∀ name status, rule None name status → status = no_match) →
  copies_candidate [] p item
  ∧ rule (TenderItem.matchedRate item) (TenderItem.name item) (TenderItem.status item) →
  unmatched item.
Proof.
  intros Hrule [(_ & _ & _ & _ & Hin) Hst].
  destruct (TenderItem.matchedRate item) as [m|] eqn:Hm.
  { by destruct (Hin m). }
  split; [|done]. eauto.
Qed.

(** C3.  Against an empty catalog [findBestMatchingItem] answers [null]
    without an event; no run of either orchestrator calls the matcher, and
    every item of the result has the status [no_match] and no [matchedRate].
    (The later variant is run from a state without items, the only one in
    which the build form is on display.) *)
Theorem empty_catalog_never_calls_matcher (w : World) (st : TenderProcessor.state) :
  (∀ targetItemName targetScope,
     run w 0 (findBestMatchingItem targetItemName targetScope (dbItems_of []))
     = ([], Normal JNull))
  ∧ (let r := run w 0 (Index.handleProcess [] st) in
     Forall not_matcher_call r.1
     ∧ match r.2 with
       | Normal st' => Forall unmatched (TenderProcessor.items st')
       | Abrupt _ => True
       end)
  ∧ (let r := run w 0 (IndexV2.handleProcess [] st) in
     Forall not_matcher_call r.1
     ∧ (TenderProcessor.items st = [] →
        match r.2 with
        | Normal st' => Forall unmatched (TenderProcessor.items st')
        | Abrupt _ => True
        end)).
Proof.
  split; [done|]. split; cbv zeta.
  - split.
    + rewrite Index_handleProcess_pipeline.
      destruct (pipeline_run _ _ [] st w (Index_body_wp [])) as (_ & _ & Ht & _). auto.
    + apply Index_items_satisfy. intros p item.
      apply empty_catalog_item_unmatched. by intros ? ?.
  - split.
    + destruct (string_truthy (trim (TenderProcessor.inputText st))) eqn:Hnb.
      2: { by rewrite IndexV2_handleProcess_blank. }
      rewrite IndexV2_handleProcess_pipeline by done.
      destruct (pipeline_run _ _ [] st w (IndexV2_body_wp [])) as (_ & _ & Ht & _). auto.
    + apply IndexV2_items_satisfy. intros p item.
      apply empty_catalog_item_unmatched. by intros ? ?.
Qed.


Lemma quantities_of_copies sorData rule (candidates : list JSValue) (items : list TenderItem.t) :
  Forall2 (λ p item,
      copies_candidate sorData p item
      ∧ rule (TenderItem.matchedRate item) (TenderItem.name item) (TenderItem.status item))
    candidates items →
  Forall2 (λ p item, quantity_rule (field p "quantity") (TenderItem.quantity item))
    candidates items.
Proof.
  intros HI. eapply Forall2_impl; [done|].
  intros p item [(_ & -> & _) _]. apply js_or_quantity_rule.
Qed.

(** C4, amended.  For every candidate that a run turns into an item, the
    quantity of the item is the quantity of the candidate when that is a
    positive number, and also when it is a negative number or any other
    truthy value; it is 1 when the quantity of the candidate is absent,
    [null], a zero or NaN. *)
Theorem quantity_defaults_to_one_when_falsy (w : World)
    (sorData : list SORItem.t) (st : TenderProcessor.state) :
  ∃ parsed,
    run w 0 (parseBulkItems (TenderProcessor.inputText st))
    = ([extraction_event st], Normal parsed)
    ∧ match (run w 0 (Index.handleProcess sorData st)).2 with
      | Normal st' =>
          ∃ candidates,
            iterate parsed = Ret candidates
            ∧ Forall2 (λ p item, quantity_rule (field p "quantity") (TenderItem.quantity item))
                candidates (TenderProcessor.items st')
      | Abrupt _ => True
      end
    ∧ (string_truthy (trim (TenderProcessor.inputText st)) = true →
       match (run w 0 (IndexV2.handleProcess sorData st)).2 with
       | Normal st' =>
           ∃ candidates,
             iterate parsed = Ret candidates
             ∧ Forall2 (λ p item, quantity_rule (field p "quantity") (TenderItem.quantity item))
                 candidates (TenderProcessor.items st')
       | Abrupt _ => True
       end).
Proof.
  destruct (pipeline_run _ _ sorData st w (Index_body_wp sorData)) as (parsed & Hrun & _ & _ & HI).
  exists parsed. split; [done|]. split.
  - rewrite Index_handleProcess_pipeline.
    destruct_run; [|done].
    destruct HI as (candidates & items & Hit & -> & HI). exists candidates. split; [done|].
    simpl. by eapply quantities_of_copies.
  - intros Hnb. rewrite IndexV2_handleProcess_pipeline by done.
    destruct (pipeline_run _ _ sorData st w (IndexV2_body_wp sorData))
      as (parsed' & Hrun' & _ & _ & HI').
    assert (parsed' = parsed) as -> by congruence.
    destruct_run; [|done].
    destruct HI' as (candidates & items & Hit & -> & HI'). exists candidates. split; [done|].
    simpl. by eapply quantities_of_copies.
Qed.

Lemma status_rule_invariant (item : TenderItem.t) :
  status_rule (TenderItem.matchedRate item) (TenderItem.name item) (TenderItem.status item) →
  status_invariant item.
Proof.
  unfold status_rule, status_invariant.
  destruct (TenderItem.matchedRate item) as [m|].
  - intros (s & _ & Heq & Hne).
    destruct (decide (toLowerCase (SORItem.name m) = toLowerCase s)) as [He|He].
    + rewrite (Heq He). split; [auto|]. split; done.
    + rewrite (Hne He). split; [auto|]. split; done.
  - intros ->. split; [auto|]. done.
Qed.

Lemma review_rule_invariant (item : TenderItem.t) :
  review_rule (TenderItem.matchedRate item) (TenderItem.name item) (TenderItem.status item) →
  status_invariant item.
Proof.
  unfold review_rule, status_invariant.
  destruct (TenderItem.matchedRate item) as [m|]; intros ->; (split; [auto|]); split; done.
Qed.

(** C10.  Every item that a run of either orchestrator produces has one of
    the statuses [matched], [review] and [no_match], never [pending], and
    it has no [matchedRate] exactly when its status is [no_match].  (The
    later variant is run from a state without items, the only one in which
    the build form is on display.) *)
Theorem tender_items_satisfy_status_invariant (w : World)
    (sorData : list SORItem.t) (st : TenderProcessor.state) :
  match (run w 0 (Index.handleProcess sorData st)).2 with
  | Normal st' => Forall status_invariant (TenderProcessor.items st')
  | Abrupt _ => True
  end
  ∧ (TenderProcessor.items st = [] →
     match (run w 0 (IndexV2.handleProcess sorData st)).2 with
     | Normal st' => Forall status_invariant (TenderProcessor.items st')
     | Abrupt _ => True
     end).
Proof.
  split.
  - apply Index_items_satisfy. intros p item [_ ?]. by apply review_rule_invariant.
  - apply IndexV2_items_satisfy. intros p item [_ ?]. by apply status_rule_invariant.
Qed.

(** The later variant follows the status rule of the specification:
    [matched] when the matched record and the candidate have the same name
    case-insensitively, [review] when they differ, [no_match] without a
    record. *)
Theorem IndexV2_status_follows_name_match (w : World)
    (sorData : list SORItem.t) (st : TenderProcessor.state) :
  TenderProcessor.items st = [] →
  match (run w 0 (IndexV2.handleProcess sorData st)).2 with
  | Normal st' =>
      Forall (λ item,
          status_rule (TenderItem.matchedRate item) (TenderItem.name item)
            (TenderItem.status item))
        (TenderProcessor.items st')
  | Abrupt _ => True
  end.
Proof. apply IndexV2_items_satisfy. by intros p item [_ ?]. Qed.

(** [index.tsx] gives every matched record the status [review]: it never
    assigns [matched]. *)
Theorem Index_status_is_review_for_every_match (w : World)
    (sorData : list SORItem.t) (st : TenderProcessor.state) :
  match (run w 0 (Index.handleProcess sorData st)).2 with
  | Normal st' =>
      Forall (λ item,
          review_rule (TenderItem.matchedRate item) (TenderItem.name item)
            (TenderItem.status item))
        (TenderProcessor.items st')
  | Abrupt _ => True
  end.
Proof. apply Index_items_satisfy. by intros p item [_ ?]. Qed.

(** Both orchestrators end normally, with one item per candidate, when the
    extraction yields an array of well-formed candidates. *)
Theorem handleProcess_completes (w : World) (sorData : list SORItem.t)
    (st : TenderProcessor.state) (parsed : JSValue) (candidates : list JSValue) :
  (run w 0 (parseBulkItems (TenderProcessor.inputText st))).2 = Normal parsed →
  iterate parsed = Ret candidates →
  Forall well_formed_candidate candidates →
  (∃ items, (run w 0 (Index.handleProcess sorData st)).2 = Normal (finished st items)
            ∧ length items = length candidates)
  ∧ (string_truthy (trim (TenderProcessor.inputText st)) = true →
     ∃ items, (run w 0 (IndexV2.handleProcess sorData st)).2 = Normal (finished st items)
              ∧ length items = length candidates).
Proof.
  intros Hparsed Hit Hwf. split.
  - rewrite Index_handleProcess_pipeline.
    destruct (pipeline_run _ _ sorData st w (Index_body_wp sorData))
      as (parsed' & Hrun & _ & Htotal & HI).
    rewrite Hrun in Hparsed. simplify_eq/=.
    destruct (Htotal _ Hit Hwf) as [items Hitems]. exists items. split; [done|].
    rewrite Hitems in HI. destruct HI as (candidates' & items' & Hit' & Hfin & HI).
    assert (items' = items) as -> by (unfold finished in Hfin; by simplify_eq/=).
    assert (candidates' = candidates) as -> by congruence.
    symmetry. by eapply Forall2_length.
  - intros Hnb. rewrite IndexV2_handleProcess_pipeline by done.
    destruct (pipeline_run _ _ sorData st w (IndexV2_body_wp sorData))
      as (parsed' & Hrun & _ & Htotal & HI).
    rewrite Hrun in Hparsed. simplify_eq/=.
    destruct (Htotal _ Hit Hwf) as [items Hitems]. exists items. split; [done|].
    rewrite Hitems in HI. destruct HI as (candidates' & items' & Hit' & Hfin & HI).
    assert (items' = items) as -> by (unfold finished in Hfin; by simplify_eq/=).
    assert (candidates' = candidates) as -> by congruence.
    symmetry. by eapply Forall2_length.
Qed.

(** [index.tsx] runs the extraction on every text: its [handleProcess] has no
    guard of its own, the disabled button is its only guard. *)
Lemma Index_handleProcess_always_extracts (w : World)
    (sorData : list SORItem.t) (st : TenderProcessor.state) :
  ∃ t, (run w 0 (Index.handleProcess sorData st)).1 = extraction_event st :: t.
Proof.
  rewrite Index_handleProcess_pipeline. unfold pipeline. rewrite run_bind.
  destruct (parseBulkItems_run w 0 (TenderProcessor.inputText st)) as (parsed & Hrun & _).
  rewrite Hrun. simpl. by eexists.
Qed.

(** In the later variant the button is disabled while the catalog is empty. *)
Lemma IndexV2_click_on_empty_catalog (w : World) (n : nat) (st : TenderProcessor.state) :
  run w n (IndexV2.buildQuote_click [] st) = ([], Normal st).
Proof.
  unfold IndexV2.buildQuote_click, IndexV2.buildQuote_disabled. simpl.
  by rewrite orb_true_r, andb_false_r.
Qed.

End Claims.

(** ** The order of binary64 numbers *)

Lemma js_le_refl (x : number) : is_nan x = false → js_le x x = true.
Proof. intros Hx. float_order. Qed.

Lemma js_le_trans (x y z : number) : js_le x y = true → js_le y z = true → js_le x z = true.
Proof. intros H1 H2. float_order. Qed.

Lemma js_le_total (x y : number) :
  is_nan x = false → is_nan y = false → js_lt x y = false → js_le y x = true.
Proof. intros Hx Hy Hlt. float_order. Qed.

Lemma js_lt_le (x y : number) : js_lt x y = true → js_le x y = true.
Proof. intros Hlt. float_order. Qed.

Lemma js_lt_not_le (x y : number) : js_lt x y = true → js_le y x = false.
Proof. intros Hlt. float_order. Qed.

Lemma js_le_antisym (x y : number) : js_le x y = true → js_le y x = true → js_eq x y = true.
Proof. intros H1 H2. float_order. Qed.

Lemma js_eq_le (x y : number) : js_eq x y = true → js_le x y = true ∧ js_le y x = true.
Proof. intros Heq. split; float_order. Qed.

Lemma js_le_not_nan (x y : number) : js_le x y = true → is_nan x = false ∧ is_nan y = false.
Proof. intros Hle. split; float_order. Qed.

Lemma js_le_Infinity (x : number) : is_nan x = false → js_le x Infinity = true.
Proof. intros Hx. float_order. Qed.

Lemma neg_zero_le_pos_zero (x lowest : number) :
  is_neg_zero x && is_pos_zero lowest = true → js_le x lowest = true.
Proof. intros [Hx Hl]%andb_prop. float_order. Qed.

(** ** [Math.min] *)

Lemma Math_min_from_NaN (xs : list number) : ∀ lowest,
  existsb is_nan xs = true → Math_min_from lowest xs = NaN.
Proof.
  induction xs as [|x xs IH]; intros lowest; simpl; [done|].
  destruct (is_nan x); [done|]. simpl. apply IH.
Qed.

Lemma Math_min_from_lower_bound (xs : list number) : ∀ lowest,
  is_nan lowest = false →
  existsb is_nan xs = false →
  let m := Math_min_from lowest xs in
  js_le m lowest = true
  ∧ Forall (λ x, js_le m x = true) xs
  ∧ (m = lowest ∨ In m xs).
Proof.
  induction xs as [|x xs IH]; intros lowest Hlowest Hxs; simpl.
  { split_and!; [by apply js_le_refl|done|by left]. }
  simpl in Hxs. apply orb_false_elim in Hxs as [Hx Hxs]. rewrite Hx.
  set (lowest1 := if is_neg_zero x && is_pos_zero lowest then x else lowest).
  set (lowest2 := if js_lt x lowest1 then x else lowest1).
  assert (is_nan lowest1 = false ∧ js_le lowest1 lowest = true ∧ (lowest1 = lowest ∨ lowest1 = x))
    as (Hn1 & Hle1 & Hin1).
  { subst lowest1. destruct (is_neg_zero x && is_pos_zero lowest) eqn:Hz.
    - split_and!; [done|by apply neg_zero_le_pos_zero|by right].
    - split_and!; [done|by apply js_le_refl|by left]. }
  assert (is_nan lowest2 = false ∧ js_le lowest2 lowest1 = true ∧ js_le lowest2 x = true
          ∧ (lowest2 = lowest1 ∨ lowest2 = x)) as (Hn2 & Hle2 & Hlex & Hin2).
  { subst lowest2. destruct (js_lt x lowest1) eqn:Hlt.
    - split_and!; [done|by apply js_lt_le|by apply js_le_refl|by right].
    - split_and!; [done|by apply js_le_refl|by apply js_le_total|by left]. }
  destruct (IH lowest2 Hn2 Hxs) as (Hm & Hall & Hin). split_and!.
  - eauto using js_le_trans.
  - constructor; [eauto using js_le_trans|done].
  - destruct Hin as [Hin|Hin]; [|by right; right].
    rewrite Hin. destruct Hin2 as [->| ->]; [|by right; left].
    destruct Hin1 as [->| ->]; [by left|by right; left].
Qed.

(** [x] equals the minimum of a list it belongs to exactly when it is below
    every element. *)
Lemma js_eq_Math_min (x : number) (xs : list number) :
  In x xs →
  js_eq x (Math_min xs) = true ↔ Forall (λ y, js_le x y = true) xs.
Proof.
  intros Hx. unfold Math_min. split.
  - intros Heq. apply js_eq_le in Heq as [Hle _].
    destruct (existsb is_nan xs) eqn:Hnan.
    { rewrite Math_min_from_NaN in Hle by done. by apply js_le_not_nan in Hle as [_ ?]. }
    destruct (Math_min_from_lower_bound xs Infinity eq_refl Hnan) as (_ & Hall & _).
    eapply Forall_impl; [apply Hall|]. simpl. eauto using js_le_trans.
  - intros Hall.
    assert (existsb is_nan xs = false) as Hnan.
    { apply not_true_is_false. intros (y & Hy & Hnan)%existsb_exists.
      rewrite Forall_forall in Hall. apply list_elem_of_In, Hall, js_le_not_nan in Hy as [_ ?].
      congruence. }
    destruct (Math_min_from_lower_bound xs Infinity eq_refl Hnan) as (_ & Hlow & Hin).
    rewrite Forall_forall in Hall, Hlow.
    apply js_le_antisym.
    + destruct Hin as [-> | Hin].
      * apply js_le_Infinity. apply list_elem_of_In, Hall, js_le_not_nan in Hx. tauto.
      * by apply Hall, list_elem_of_In.
    + by apply Hlow, list_elem_of_In.
Qed.

(** ** Counting with [filter] *)

Lemma filter_nonempty_lookup {X : Type} (f : X → bool) (l : list X) :
  (0 < length (List.filter f l))%nat ↔ ∃ i x, l !! i = Some x ∧ f x = true.
Proof.
  induction l as [|a l IH]; simpl.
  { split; [lia|]. by intros (i & x & ? & _). }
  destruct (f a) eqn:Ha; simpl.
  - split; [|lia]. intros _. by exists 0%nat, a.
  - rewrite IH. split.
    + intros (i & x & ? & ?). by exists (S i), x.
    + intros ([|i] & x & Hx & Hf); simpl in Hx; [congruence|eauto].
Qed.

Lemma filter_two_lookup {X : Type} (f : X → bool) (l : list X) :
  (1 <? length (List.filter f l))%nat = true ↔
  ∃ i j x y, i ≠ j ∧ l !! i = Some x ∧ l !! j = Some y ∧ f x = true ∧ f y = true.
Proof.
  rewrite Nat.ltb_lt. induction l as [|a l IH]; simpl.
  { split; [lia|]. by intros (i & j & x & y & _ & ? & _). }
  destruct (f a) eqn:Ha; simpl.
  - rewrite <-Nat.succ_lt_mono, filter_nonempty_lookup. split.
    + intros (j & y & Hy & Hfy). by exists 0%nat, (S j), a, y.
    + intros ([|i] & [|j] & x & y & Hij & Hx & Hy & Hfx & Hfy); simpl in *; eauto.
      done.
  - rewrite IH. split.
    + intros (i & j & x & y & Hij & Hx & Hy & Hfx & Hfy).
      exists (S i), (S j), x, y. split_and!; try done. lia.
    + intros ([|i] & [|j] & x & y & Hij & Hx & Hy & Hfx & Hfy); simpl in *;
        try congruence.
      exists i, j, x, y. split_and!; try done. lia.
Qed.

(** ** The benchmark flag *)

Section Lowest.
Context `{Builtins}.

Lemma same_name_shares (item r : SORItem.t) :
  same_name item r = true ↔ shares_name r item.
Proof. unfold same_name, shares_name. apply String.eqb_eq. Qed.

Lemma same_name_shift (item other r : SORItem.t) :
  shares_name other item → same_name other r = same_name item r.
Proof. unfold same_name, shares_name. by intros ->. Qed.

(** A record of the catalog is flagged exactly when another position of the
    catalog holds a record of the same name and no record of that name has a
    lower rate. *)
Lemma isLowest_spec (allRates : list SORItem.t) (item : SORItem.t) :
  In item allRates →
  isLowest allRates item = true ↔
    (∃ i j ri rj, i ≠ j ∧ allRates !! i = Some ri ∧ allRates !! j = Some rj
                  ∧ shares_name ri item ∧ shares_name rj item)
    ∧ (∀ r, In r allRates → shares_name r item →
            js_le (SORItem.rate item) (SORItem.rate r) = true).
Proof.
  intros Hitem. unfold isLowest.
  assert (In (SORItem.rate item) (map SORItem.rate (List.filter (same_name item) allRates)))
    as Hrate.
  { apply in_map, filter_In. split; [done|]. by apply same_name_shares. }
  rewrite andb_true_iff, filter_two_lookup, (js_eq_Math_min _ _ Hrate).
  assert (∀ P P' Q Q' : Prop, (P ↔ P') → (Q ↔ Q') → (P ∧ Q ↔ P' ∧ Q')) as Hand by tauto.
  apply Hand.
  - do 4 (apply exist_proper; intros ?). by rewrite !same_name_shares.
  - rewrite Forall_forall. split.
    + intros Hall r Hr Hshare. apply Hall, list_elem_of_In, in_map, filter_In.
      split; [done|]. by apply same_name_shares.
    + intros Hall y (r & <- & [Hr Hs]%filter_In)%list_elem_of_In%in_map_iff.
      apply Hall; [done|]. by apply same_name_shares.
Qed.

(** C6.  For a record of the catalog, [isLowest] holds exactly when two
    positions of the catalog hold records of its name (case-insensitively)
    and no record of that name has a lower rate; a record of the same name
    and an equal rate is flagged with it, and a record above another of its
    name is not flagged. *)
Theorem isLowest_flags_the_minimum_of_a_shared_name
    (allRates : list SORItem.t) (item : SORItem.t) :
  In item allRates →
  (isLowest allRates item = true ↔
     (∃ i j ri rj, i ≠ j ∧ allRates !! i = Some ri ∧ allRates !! j = Some rj
                   ∧ shares_name ri item ∧ shares_name rj item)
     ∧ (∀ r, In r allRates → shares_name r item →
             js_le (SORItem.rate item) (SORItem.rate r) = true))
  ∧ (∀ other, In other allRates → shares_name other item →
       js_eq (SORItem.rate other) (SORItem.rate item) = true →
       isLowest allRates item = true → isLowest allRates other = true)
  ∧ (∀ other, In other allRates → shares_name other item →
       js_lt (SORItem.rate other) (SORItem.rate item) = true →
       isLowest allRates item = false).
Proof.
  intros Hitem. split_and!.
  - by apply isLowest_spec.
  - intros other Hother Hshare Heq.
    rewrite !isLowest_spec by done. intros [(i & j & ri & rj & Hij & Hi & Hj & Hri & Hrj) Hmin].
    apply js_eq_le in Heq as [Hle _]. unfold shares_name in *. split.
    + exists i, j, ri, rj. split_and!; congruence.
    + intros r Hr Hs. eapply js_le_trans; [done|]. apply Hmin; [done|]. congruence.
  - intros other Hother Hshare Hlt. apply not_true_is_false.
    rewrite isLowest_spec by done. intros [_ Hmin].
    specialize (Hmin other Hother Hshare). apply js_lt_not_le in Hlt. congruence.
Qed.

End Lowest.

(** ** The catalog: update and load *)

(** C7.  While a record is being edited, submitting the form keeps the
    length and the order of the catalog; at every position the id and the
    timestamp are the ones that were there; a record with the edited id
    carries the five submitted fields, and every other record is unchanged. *)
Theorem update_replaces_fields_and_keeps_the_rest (w : World) (n : nat)
    (item : RateFields.t) (st : App.state) (editing : SORItem.t) :
  App.editingItem st = Some editing →
  ∃ st',
    run w n (handleAddOrUpdateRate item st) = ([], Normal st')
    ∧ length (App.sorData st') = length (App.sorData st)
    ∧ ∀ i r, App.sorData st !! i = Some r →
        ∃ r', App.sorData st' !! i = Some r'
          ∧ SORItem.id r' = SORItem.id r
          ∧ SORItem.timestamp r' = SORItem.timestamp r
          ∧ (SORItem.id r = SORItem.id editing → carries item r')
          ∧ (SORItem.id r ≠ SORItem.id editing → r' = r).
Proof.
  intros Hediting. unfold handleAddOrUpdateRate. rewrite Hediting. simpl.
  eexists. split; [done|]. simpl. split; [by rewrite length_fmap|].
  intros i r Hr. rewrite list_lookup_fmap, Hr. simpl. eexists. split; [done|].
  destruct (String.eqb_spec (SORItem.id r) (SORItem.id editing)) as [Heq|Hne]; simpl.
  - split_and!; done.
  - split_and!; done.
Qed.

Section Load.
Context `{Builtins}.

Lemma Index_loadEffect_unparseable (localStorage : gmap string string) (st : App.state)
    (saved : string) (w : World) (n : nat) :
  localStorage !! Index.storage_key = Some saved →
  string_truthy saved = true →
  JSON_parse saved = None →
  run w n (Index.loadEffect localStorage st) = ([], Abrupt SyntaxError).
Proof.
  intros Hsaved Htruthy Hparse. unfold Index.loadEffect, json_parse.
  by rewrite Hsaved, Htruthy, Hparse.
Qed.

Lemma IndexV2_loadEffect_unparseable (localStorage : gmap string string) (st : App.state)
    (saved : string) (w : World) (n : nat) :
  localStorage !! IndexV2.storage_key = Some saved →
  string_truthy saved = true →
  JSON_parse saved = None →
  run w n (IndexV2.loadEffect localStorage st) = ([], Abrupt SyntaxError).
Proof.
  intros Hsaved Htruthy Hparse. unfold IndexV2.loadEffect, json_parse.
  by rewrite Hsaved, Htruthy, Hparse.
Qed.

(** The mount effect of [App.tsx] never throws, and an unparseable
    payload leaves the empty catalog. *)
Theorem Modular_loadEffect_never_throws (localStorage : gmap string string) (st : App.state)
    (w : World) (n : nat) :
  ∃ mounted,
    run w n (Modular.loadEffect localStorage st) = ([], Normal mounted)
    ∧ ∀ saved, localStorage !! Modular.storage_key = Some saved →
        string_truthy saved = true → JSON_parse saved = None →
        mounted = Typed (App.setSorData [] st).
Proof.
  unfold Modular.loadEffect, json_parse.
  destruct (localStorage !! Modular.storage_key) as [saved|];
    [|eexists; split; [done|]; by intros].
  destruct (string_truthy saved) eqn:Htruthy;
    [|eexists; split; [done|]; intros ? [= <-]; congruence].
  destruct (JSON_parse saved) as [v|] eqn:Hparse; simpl.
  - eexists. split; [done|]. intros ? [= <-] _ ?. congruence.
  - eexists. split; [done|]. done.
Qed.

End Load.

(** ** Exact arithmetic on small naturals *)

Lemma iter_pos_iter {X : Type} (f : X → X) (n : positive) : ∀ x,
  SpecFloat.iter_pos f n x = Pos.iter f x n.
Proof.
  induction n as [n IH|n IH|]; intros x; simpl; [|by rewrite !IH|done].
  by rewrite !IH, !Pos.iter_swap.
Qed.

Lemma shift_left_value (m p : positive) :
  Zpos (Pos.iter xO m p) = Zpos m * 2 ^ Zpos p.
Proof.
  apply (Pos.iter_ind _ xO m (λ p r, Zpos r = Zpos m * 2 ^ Zpos p)).
  - lia.
  - intros q r Hr. rewrite Pos2Z.inj_succ, Z.pow_succ_r by lia. lia.
Qed.

Lemma digits_shift (k : nat) : ∀ m c : positive,
  Zpos m = Zpos c * 2 ^ Z.of_nat k →
  Zpos (digits2_pos m) = Zpos (digits2_pos c) + Z.of_nat k.
Proof.
  induction k as [|k IH]; intros m c Hm.
  { simpl in Hm. assert (m = c) as -> by lia. lia. }
  rewrite Nat2Z.inj_succ, Z.pow_succ_r in Hm by lia.
  destruct m as [m|m|]; [lia| |lia].
  simpl. rewrite Pos2Z.inj_succ, (IH m c) by lia. lia.
Qed.

Lemma digits_pos_bounds (c : positive) :
  2 ^ (Zpos (digits2_pos c) - 1) ≤ Zpos c < 2 ^ Zpos (digits2_pos c).
Proof.
  induction c as [c IH|c IH|]; simpl; [| |done].
  - rewrite Pos2Z.inj_succ, Z.pow_succ_r by lia.
    replace (Z.succ (Zpos (digits2_pos c)) - 1) with (Z.succ (Zpos (digits2_pos c) - 1)) by lia.
    rewrite Z.pow_succ_r by lia. lia.
  - rewrite Pos2Z.inj_succ, Z.pow_succ_r by lia.
    replace (Z.succ (Zpos (digits2_pos c)) - 1) with (Z.succ (Zpos (digits2_pos c) - 1)) by lia.
    rewrite Z.pow_succ_r by lia. lia.
Qed.

(** Shifting out zeros is exact. *)
Lemma shr_exact (p : positive) : ∀ q m : positive,
  Zpos m = Zpos q * 2 ^ Zpos p →
  Pos.iter shr_1 (Build_shr_record (Zpos m) false false) p
  = Build_shr_record (Zpos q) false false.
Proof.
  induction p as [|p IH] using Pos.peano_ind; intros q m Hm.
  { simpl. destruct m as [m|m|]; [lia| |lia]. f_equal. lia. }
  rewrite Pos.iter_succ_r. rewrite Pos2Z.inj_succ, Z.pow_succ_r in Hm by lia.
  destruct m as [m|m|]; [lia| |lia]. simpl. apply IH. lia.
Qed.

Lemma fexp_small (d : Z) : 1 ≤ d → fexp prec emax d = d - 53.
Proof. unfold fexp, emin, prec, emax. lia. Qed.

(** Rounding a mantissa that still carries all digits of [c] is exact. *)
Lemma binary_round_aux_exact (s : bool) (m c : positive) (e : Z) :
  Zpos (digits2_pos c) ≤ 53 →
  53 - Zpos (digits2_pos c) ≤ - e →
  Zpos m = Zpos c * 2 ^ (- e) →
  binary_round_aux prec emax s (Zpos m) e loc_Exact = canon s c.
Proof.
  intros Hd He Hm.
  set (d := Zpos (digits2_pos c)) in *.
  assert (Zpos (digits2_pos m) = d - e) as Hdm.
  { rewrite (digits_shift (Z.to_nat (- e)) m c) by (rewrite Z2Nat.id by lia; done).
    rewrite Z2Nat.id by lia. lia. }
  set (q := Z.to_pos (Zpos c * 2 ^ (53 - d))).
  assert (Zpos q = Zpos c * 2 ^ (53 - d)) as Hq.
  { subst q. rewrite Z2Pos.id; [done|]. apply Z.mul_pos_pos; [lia|]. apply Z.pow_pos_nonneg; lia. }
  assert (Zpos (digits2_pos q) = 53) as Hdq.
  { rewrite (digits_shift (Z.to_nat (53 - d)) q c) by (rewrite Z2Nat.id by lia; done).
    rewrite Z2Nat.id by lia. fold d. lia. }
  assert (shr_fexp prec emax (Zpos m) e loc_Exact
          = (Build_shr_record (Zpos q) false false, d - 53)) as Hshr.
  { unfold shr_fexp, shr. simpl Zdigits2. rewrite Hdm.
    replace (d - e + e) with d by lia. rewrite fexp_small by (subst d; lia).
    destruct (d - 53 - e) as [|p|p] eqn:Hp; simpl.
    - f_equal; [|lia]. f_equal. assert (e = d - 53) as -> by lia.
      replace (- (d - 53)) with (53 - d) in Hm by lia. congruence.
    - rewrite iter_pos_iter. f_equal; [|lia]. apply shr_exact.
      rewrite Hm, Hq, <-Z.mul_assoc, <-Z.pow_add_r by lia. do 2 f_equal. lia.
    - lia. }
  unfold binary_round_aux. rewrite Hshr. simpl.
  unfold shr_fexp, shr. simpl Zdigits2. rewrite Hdq.
  replace (53 + (d - 53)) with d by lia. rewrite fexp_small by (subst d; lia).
  rewrite Z.sub_diag. simpl.
  unfold emax, prec. destruct (Z.leb_spec (d - 53) (1024 - 53)); [|lia].
  unfold canon. fold d. by fold q.
Qed.

Lemma binary_round_exact (s : bool) (m c : positive) (e : Z) :
  Zpos (digits2_pos c) ≤ 53 →
  e ≤ 0 →
  Zpos m = Zpos c * 2 ^ (- e) →
  binary_round prec emax s m e = canon s c.
Proof.
  intros Hd He Hm.
  set (d := Zpos (digits2_pos c)) in *.
  assert (Zpos (digits2_pos m) = d - e) as Hdm.
  { rewrite (digits_shift (Z.to_nat (- e)) m c) by (rewrite Z2Nat.id by lia; done).
    rewrite Z2Nat.id by lia. lia. }
  unfold binary_round. rewrite Hdm.
  replace (d - e + e) with d by lia. rewrite fexp_small by (subst d; lia).
  unfold shl_align. destruct (d - 53 - e) as [|p|p] eqn:Hp.
  - apply binary_round_aux_exact; [done|fold d; lia|done].
  - apply binary_round_aux_exact; [done|fold d; lia|done].
  - apply binary_round_aux_exact; [done|fold d; lia|].
    rewrite shift_left_value, Hm, <-Z.mul_assoc, <-Z.pow_add_r by lia.
    do 2 f_equal. lia.
Qed.

Lemma digits_le_53 (c : positive) : Zpos c < 2 ^ 53 → Zpos (digits2_pos c) ≤ 53.
Proof.
  intros Hc. pose proof (digits_pos_bounds c) as [Hlow _].
  assert (2 ^ (Zpos (digits2_pos c) - 1) < 2 ^ 53) as Hpow by lia.
  apply Z.pow_lt_mono_r_iff in Hpow; lia.
Qed.

Lemma ofN_pos (c : positive) : Zpos c < 2 ^ 53 → ofN (Npos c) = canon false c.
Proof.
  intros Hc. unfold ofN, ofZ. simpl.
  apply binary_round_exact; [by apply digits_le_53|done|]. simpl. lia.
Qed.

Lemma canon_mantissa (c : positive) :
  Zpos (digits2_pos c) ≤ 53 →
  Zpos (Z.to_pos (Zpos c * 2 ^ (53 - Zpos (digits2_pos c))))
  = Zpos c * 2 ^ (53 - Zpos (digits2_pos c)).
Proof.
  intros Hd. rewrite Z2Pos.id; [done|].
  apply Z.mul_pos_pos; [lia|]. apply Z.pow_pos_nonneg; lia.
Qed.

Lemma shl_align_value (m : positive) (e ez : Z) :
  ez ≤ e → Zpos (shl_align m e ez).1 = Zpos m * 2 ^ (e - ez).
Proof.
  intros He. unfold shl_align. destruct (ez - e) as [|p|p] eqn:Hp; simpl.
  - replace (e - ez) with 0 by lia. lia.
  - lia.
  - rewrite shift_left_value. do 2 f_equal. lia.
Qed.

Lemma js_add_exact (a b : N) :
  (a + b < 2 ^ 53)%N → js_add (ofN a) (ofN b) = ofN (a + b).
Proof.
  intros Hab. destruct a as [|a], b as [|b].
  - done.
  - rewrite N.add_0_l, !ofN_pos by lia. done.
  - rewrite N.add_0_r, !ofN_pos by lia. done.
  - change (N.pos a + N.pos b)%N with (N.pos (a + b)) in *. rewrite !ofN_pos by lia.
    assert (Zpos (digits2_pos a) ≤ 53) as Hda by (apply digits_le_53; lia).
    assert (Zpos (digits2_pos b) ≤ 53) as Hdb by (apply digits_le_53; lia).
    assert (Zpos (digits2_pos (a + b)) ≤ 53) as Hdc by (apply digits_le_53; lia).
    unfold js_add, canon, SFadd, cond_Zopp.
    set (da := Zpos (digits2_pos a)) in *. set (db := Zpos (digits2_pos b)) in *.
    set (ez := Z.min (da - 53) (db - 53)).
    rewrite <-Pos2Z.inj_add. simpl binary_normalize.
    apply binary_round_exact; [done|lia|].
    rewrite Pos2Z.inj_add, !shl_align_value by lia.
    subst da db. rewrite !canon_mantissa by done.
    rewrite <-!Z.mul_assoc, <-!Z.pow_add_r by lia.
    rewrite Pos2Z.inj_add, Z.mul_add_distr_r. f_equal; do 2 f_equal; lia.
Qed.

Lemma digits_mul_lower (a b : positive) :
  Zpos (digits2_pos a) + Zpos (digits2_pos b) - 1 ≤ Zpos (digits2_pos (a * b)).
Proof.
  pose proof (digits_pos_bounds a) as [Ha _].
  pose proof (digits_pos_bounds b) as [Hb _].
  pose proof (digits_pos_bounds (a * b)) as [_ Hab].
  assert (2 ^ (Zpos (digits2_pos a) - 1 + (Zpos (digits2_pos b) - 1))
          < 2 ^ Zpos (digits2_pos (a * b))) as Hpow.
  { rewrite Z.pow_add_r by lia. rewrite Pos2Z.inj_mul in Hab.
    eapply Z.le_lt_trans; [|apply Hab]. apply Z.mul_le_mono_nonneg; lia. }
  apply Z.pow_lt_mono_r_iff in Hpow; lia.
Qed.

Lemma js_mul_exact (a b : N) :
  (a < 2 ^ 53)%N → (b < 2 ^ 53)%N → (a * b < 2 ^ 53)%N →
  js_mul (ofN a) (ofN b) = ofN (a * b).
Proof.
  intros Ha Hb Hab. destruct a as [|a], b as [|b].
  - done.
  - rewrite N.mul_0_l, !ofN_pos by lia. done.
  - rewrite N.mul_0_r, !ofN_pos by lia. done.
  - change (N.pos a * N.pos b)%N with (N.pos (a * b)) in *. rewrite !ofN_pos by lia.
    assert (Zpos (digits2_pos a) ≤ 53) as Hda by (apply digits_le_53; lia).
    assert (Zpos (digits2_pos b) ≤ 53) as Hdb by (apply digits_le_53; lia).
    assert (Zpos (digits2_pos (a * b)) ≤ 53) as Hdc by (apply digits_le_53; lia).
    pose proof (digits_mul_lower a b) as Hlow.
    unfold js_mul, SFmul. unfold canon at 1 2.
    set (da := Zpos (digits2_pos a)) in *. set (db := Zpos (digits2_pos b)) in *.
    simpl xorb.
    apply binary_round_aux_exact; [done|lia|].
    subst da db. rewrite Pos2Z.inj_mul, !canon_mantissa by done.
    rewrite Pos2Z.inj_mul.
    replace (- (Zpos (digits2_pos a) - 53 + (Zpos (digits2_pos b) - 53)))
      with ((53 - Zpos (digits2_pos a)) + (53 - Zpos (digits2_pos b))) by lia.
    rewrite Z.pow_add_r by lia. lia.
Qed.

(** ** The grand total *)

Lemma N_sum_Permutation (l l' : list N) : Permutation l l' → N_sum l = N_sum l'.
Proof. induction 1; simpl; lia. Qed.

Lemma number_or_ofN (r : N) : (r < 2 ^ 53)%N → number_or (ofN r) zero = ofN r.
Proof.
  intros Hr. destruct r as [|r]; [done|]. by rewrite ofN_pos by lia.
Qed.

Section Total.
Context `{Builtins}.

Lemma lineAmount_exact (item : TenderItem.t) (q r : N) :
  natural_line item q r → (q < 2 ^ 53)%N → (r < 2 ^ 53)%N → (q * r < 2 ^ 53)%N →
  lineAmount item = ofN (q * r).
Proof.
  intros [Hq Hr] Hqs Hrs Hqr. unfold lineAmount. rewrite Hq, ToNumber_number.
  destruct (TenderItem.matchedRate item) as [record|].
  - rewrite Hr, number_or_ofN by done. by apply js_mul_exact.
  - subst r. by apply (js_mul_exact q 0).
Qed.

Lemma fold_total_exact (quantity rate : TenderItem.t → N) (items : list TenderItem.t) :
  ∀ acc : N,
  (∀ item, In item items →
     natural_line item (quantity item) (rate item)
     ∧ (quantity item < 2 ^ 53)%N ∧ (rate item < 2 ^ 53)%N) →
  (acc + N_sum (map (λ item, quantity item * rate item)%N items) < 2 ^ 53)%N →
  fold_left (λ sum item, js_add sum (lineAmount item)) items (ofN acc)
  = ofN (acc + N_sum (map (λ item, quantity item * rate item)%N items)).
Proof.
  induction items as [|item items IH]; intros acc Hitems Hsum; simpl in *.
  { by rewrite N.add_0_r. }
  destruct (Hitems item) as (Hline & Hq & Hr); [by left|].
  rewrite (lineAmount_exact item _ _ Hline) by lia.
  rewrite js_add_exact by lia. rewrite IH; [f_equal; lia|auto|lia].
Qed.

Lemma calculateTotal_in_order (items : list TenderItem.t) :
  calculateTotal items = fold_left js_add (map lineAmount items) zero.
Proof.
  unfold calculateTotal. generalize zero.
  induction items as [|item items IH]; intros acc; simpl; [done|apply IH].
Qed.

(** C9, amended.  The grand total is the sum of the line amounts taken from
    left to right.  When the quantities and the rates are naturals below
    [2^53] and the exact total is below [2^53], the grand total is that
    exact total, the sum over the items of quantity times rate (0 without a
    matched record), and it is the same for every permutation of the items. *)
Theorem grand_total_exact_on_small_naturals
    (quantity rate : TenderItem.t → N) (items : list TenderItem.t) :
  (∀ item, In item items →
     natural_line item (quantity item) (rate item)
     ∧ (quantity item < 2 ^ 53)%N ∧ (rate item < 2 ^ 53)%N) →
  (N_sum (map (λ item, quantity item * rate item)%N items) < 2 ^ 53)%N →
  calculateTotal items = fold_left js_add (map lineAmount items) zero
  ∧ calculateTotal items = ofN (N_sum (map (λ item, quantity item * rate item)%N items))
  ∧ ∀ items', Permutation items items' → calculateTotal items' = calculateTotal items.
Proof.
  intros Hitems Hsum. split; [apply calculateTotal_in_order|].
  assert (∀ l, Permutation items l →
            calculateTotal l = ofN (N_sum (map (λ item, quantity item * rate item)%N items)))
    as Hany.
  { intros l Hperm. unfold calculateTotal. change zero with (ofN 0).
    rewrite (fold_total_exact quantity rate).
    - f_equal. rewrite N.add_0_l. apply N_sum_Permutation. by apply Permutation_map.
    - intros item Hitem. apply Hitems. by eapply Permutation_in.
    - rewrite N.add_0_l.
      by rewrite <-(N_sum_Permutation _ _ (Permutation_map _ Hperm)). }
  split.
  - by apply Hany.
  - intros items' Hperm. by rewrite (Hany items'), (Hany items).
Qed.

End Total.


(** ** The orchestrators: failures, calls and counts *)

Section OrchestratorRuns.
Context `{Builtins}.

Lemma Index_body_throws_TypeError sorData p :
  wp (Index.handleProcess_body sorData p) (λ _ c, only_TypeError c).
Proof.
  unfold Index.handleProcess_body.
  destruct (nullish_cases p) as [-> | [-> | [Hp1 Hp2]]]; [done..|].
  rewrite !get_field by done. simpl.
  apply wp_bind. eapply wp_mono; [|apply findBestMatchingItem_wp].
  intros t c ([matchedId ->] & _). simpl. done.
Qed.

Lemma IndexV2_body_throws_TypeError sorData p :
  wp (IndexV2.handleProcess_body sorData p) (λ _ c, only_TypeError c).
Proof.
  unfold IndexV2.handleProcess_body.
  destruct (nullish_cases p) as [-> | [-> | [Hp1 Hp2]]]; [done..|].
  rewrite !get_field by done. simpl.
  apply wp_bind. eapply wp_mono; [|apply findBestMatchingItem_wp].
  intros t c ([matchedId ->] & _). simpl. intros u.
  destruct (find_by_id sorData matchedId); [|done].
  by destruct (field p "name").
Qed.

Lemma Index_body_nullish sorData p :
  nullish p = true → Index.handleProcess_body sorData p = Throw TypeError.
Proof. by destruct p. Qed.

Lemma IndexV2_body_nullish sorData p :
  nullish p = true → IndexV2.handleProcess_body sorData p = Throw TypeError.
Proof. by destruct p. Qed.

Lemma for_of_nullish (body : JSValue → Prog TenderItem.t) (w : World) :
  (∀ p, wp (body p) (λ _ c, only_TypeError c)) →
  (∀ p, nullish p = true → body p = Throw TypeError) →
  ∀ candidates n results,
    existsb nullish candidates = true →
    (run w n (for_of body candidates results)).2 = Abrupt TypeError.
Proof.
  intros Hbody Hnull. induction candidates as [|p candidates IH]; intros n results; simpl; [done|].
  change (bind (body p) ?f) with (body p ≫= f).
  destruct (nullish p) eqn:Hp; simpl.
  - intros _. by rewrite (Hnull p Hp).
  - intros Hrest. rewrite run_bind.
    pose proof (wp_run _ _ (Hbody p) w n) as Hc. simpl in Hc.
    destruct (run w n (body p)) as [t [item|e]]; simpl in *.
    + by apply IH.
    + by rewrite Hc.
Qed.

Lemma pipeline_rejects (body : JSValue → Prog TenderItem.t) (w : World)
    (st : TenderProcessor.state) (parsed : JSValue) :
  (∀ p, wp (body p) (λ _ c, only_TypeError c)) →
  (∀ p, nullish p = true → body p = Throw TypeError) →
  (run w 0 (parseBulkItems (TenderProcessor.inputText st))).2 = Normal parsed →
  not_a_candidate_list parsed →
  (run w 0 (pipeline body st)).2 = Abrupt TypeError
  ∧ (iterable parsed = false → (run w 0 (pipeline body st)).1 = [extraction_event st]).
Proof.
  intros Hbody Hnull Hparsed Hbad. unfold pipeline. rewrite run_bind.
  destruct (parseBulkItems_run w 0 (TenderProcessor.inputText st)) as (parsed' & Hrun & _).
  rewrite Hrun in Hparsed |- *. simpl in Hparsed. injection Hparsed as ->. simpl.
  rewrite run_bind.
  destruct Hbad as [Hit | (candidates & Hit & Hnullish)].
  - assert (iterate parsed = Throw TypeError) as -> by (by destruct parsed).
    by simpl.
  - rewrite Hit. simpl. rewrite run_bind.
    rewrite (for_of_nullish body w Hbody Hnull candidates _ [] Hnullish). simpl.
    split; [done|]. intros Hno. destruct parsed; simpl in *; congruence.
Qed.

(** When the extraction answers a JSON text whose value is not iterable (an
    object, a number, a boolean, [null]), or an array that holds [null], the
    loop of [handleProcess] throws: the run ends with a TypeError in both
    variants, its try/catch being inside [parseBulkItems] only, and no item
    list is stored.  When the value is not iterable, the extraction is the
    only event of the run. *)
Theorem handleProcess_rejects_ill_formed_extraction (w : World)
    (sorData : list SORItem.t) (st : TenderProcessor.state) (parsed : JSValue) :
  (run w 0 (parseBulkItems (TenderProcessor.inputText st))).2 = Normal parsed →
  not_a_candidate_list parsed →
  (run w 0 (Index.handleProcess sorData st)).2 = Abrupt TypeError
  ∧ (iterable parsed = false →
     (run w 0 (Index.handleProcess sorData st)).1 = [extraction_event st])
  ∧ (string_truthy (trim (TenderProcessor.inputText st)) = true →
     (run w 0 (IndexV2.handleProcess sorData st)).2 = Abrupt TypeError
     ∧ (iterable parsed = false →
        (run w 0 (IndexV2.handleProcess sorData st)).1 = [extraction_event st])).
Proof.
  intros Hparsed Hbad.
  rewrite Index_handleProcess_pipeline.
  destruct (pipeline_rejects (Index.handleProcess_body sorData) w st parsed) as [Hc Ht];
    auto using Index_body_throws_TypeError, Index_body_nullish.
  split_and!; [done..|]. intros Hnb.
  rewrite IndexV2_handleProcess_pipeline by done.
  apply pipeline_rejects; auto using IndexV2_body_throws_TypeError, IndexV2_body_nullish.
Qed.

Lemma matcher_events (sorData : list SORItem.t) (name scope : JSValue) :
  wp (findBestMatchingItem name scope (dbItems_of sorData))
     (λ t c, (∃ v, c = Normal v)
             ∧ t = if (length sorData =? 0)%nat then []
                   else [EvGenerateContent (FindBestMatchPrompt name scope (dbItems_of sorData))]).
Proof.
  eapply wp_mono; [|apply findBestMatchingItem_wp].
  intros t c (Hc & Hnil & Hcons). split; [done|].
  destruct sorData as [|d sorData]; simpl.
  - by destruct Hnil.
  - by apply Hcons.
Qed.

Lemma Index_turn sorData p :
  well_formed_candidate p → wp (Index.handleProcess_body sorData p) (turn_post sorData p).
Proof.
  intros (props & s & -> & Hname). unfold Index.handleProcess_body. simpl.
  apply wp_bind. eapply wp_mono; [|apply matcher_events].
  intros t c ([matchedId ->] & ->). simpl. intros u. split; [reflexivity|by eexists].
Qed.

Lemma IndexV2_turn sorData p :
  well_formed_candidate p → wp (IndexV2.handleProcess_body sorData p) (turn_post sorData p).
Proof.
  intros (props & s & -> & Hname). unfold IndexV2.handleProcess_body. simpl.
  apply wp_bind. eapply wp_mono; [|apply matcher_events].
  intros t c ([matchedId ->] & ->). simpl. intros u.
  assert (turn_events sorData (JObj props)
          = (if (length sorData =? 0)%nat then []
             else [EvGenerateContent
                     (FindBestMatchPrompt (lookup_prop "name" props)
                        (lookup_prop "requestedScope" props) (dbItems_of sorData))])
            ++ [EvRandomUUID]) as Hturn by reflexivity.
  destruct (find_by_id sorData matchedId); simpl; [rewrite Hname; simpl|];
    (split; [by rewrite Hturn, ?Hname|by eexists]).
Qed.

Lemma for_of_trace (body : JSValue → Prog TenderItem.t) (sorData : list SORItem.t) (w : World) :
  (∀ p, well_formed_candidate p → wp (body p) (turn_post sorData p)) →
  ∀ candidates, Forall well_formed_candidate candidates →
  ∀ n results,
    (run w n (for_of body candidates results)).1 = flat_map (turn_events sorData) candidates.
Proof.
  intros Hbody. induction 1 as [|p candidates Hp Hwf IH]; intros n results; [done|].
  cbn [for_of flat_map]. rewrite run_bind.
  destruct (wp_run _ _ (Hbody p Hp) w n) as [Ht [item Hc]]. rewrite Hc. simpl.
  by rewrite Ht, IH.
Qed.

Lemma pipeline_trace (body : JSValue → Prog TenderItem.t) (sorData : list SORItem.t)
    (w : World) (st : TenderProcessor.state) (parsed : JSValue) (candidates : list JSValue) :
  (∀ p, well_formed_candidate p → wp (body p) (turn_post sorData p)) →
  (run w 0 (parseBulkItems (TenderProcessor.inputText st))).2 = Normal parsed →
  iterate parsed = Ret candidates →
  Forall well_formed_candidate candidates →
  (run w 0 (pipeline body st)).1
  = extraction_event st :: flat_map (turn_events sorData) candidates.
Proof.
  intros Hbody Hparsed Hit Hwf. unfold pipeline. rewrite run_bind.
  destruct (parseBulkItems_run w 0 (TenderProcessor.inputText st)) as (parsed' & Hrun & _).
  rewrite Hrun in Hparsed |- *. simpl in Hparsed. injection Hparsed as ->. simpl.
  rewrite Hit. rewrite run_bind. simpl. rewrite run_bind.
  pose proof (for_of_trace body sorData w Hbody candidates Hwf 1%nat []) as Ht.
  destruct (run w 1 (for_of body candidates [])) as [t [items|e]]; simpl in *.
  - by rewrite Ht, app_nil_r.
  - by rewrite Ht.
Qed.

(** On an array of well-formed candidates, a run of either orchestrator
    makes the extraction call, then for each candidate in turn one call of
    the matcher with the name and the scope of that candidate and the whole
    catalog (no call when the catalog is empty) and one draw of an id: the
    calls are sequential, one plus the number of candidates. *)
Theorem handleProcess_calls_the_model_once_per_candidate (w : World)
    (sorData : list SORItem.t) (st : TenderProcessor.state)
    (parsed : JSValue) (candidates : list JSValue) :
  (run w 0 (parseBulkItems (TenderProcessor.inputText st))).2 = Normal parsed →
  iterate parsed = Ret candidates →
  Forall well_formed_candidate candidates →
  (run w 0 (Index.handleProcess sorData st)).1
  = extraction_event st :: flat_map (turn_events sorData) candidates
  ∧ (string_truthy (trim (TenderProcessor.inputText st)) = true →
     (run w 0 (IndexV2.handleProcess sorData st)).1
     = extraction_event st :: flat_map (turn_events sorData) candidates).
Proof.
  intros Hparsed Hit Hwf. split.
  - rewrite Index_handleProcess_pipeline.
    eapply pipeline_trace; eauto using Index_turn.
  - intros Hnb. rewrite IndexV2_handleProcess_pipeline by done.
    eapply pipeline_trace; eauto using IndexV2_turn.
Qed.

Lemma carried_over_copies sorData rule (candidates : list JSValue) (items : list TenderItem.t) :
  Forall2 (λ p item,
      copies_candidate sorData p item
      ∧ rule (TenderItem.matchedRate item) (TenderItem.name item) (TenderItem.status item))
    candidates items →
  Forall2 carried_over candidates items.
Proof.
  intros HI. eapply Forall2_impl; [done|].
  intros p item [(Hname & _ & Hscope & Hrate & _) _]. by repeat split.
Qed.

(** Every item that a run of either orchestrator stores carries the
    [name], the [requestedScope] and the [estimatedRate] of its candidate
    as they are, whatever their type, and the items stand in the order of
    the candidates; the run leaves the pasted text as it was and ends with
    [processing] reset. *)
Theorem items_copy_their_candidates (w : World)
    (sorData : list SORItem.t) (st : TenderProcessor.state) :
  ∃ parsed,
    run w 0 (parseBulkItems (TenderProcessor.inputText st))
    = ([extraction_event st], Normal parsed)
    ∧ match (run w 0 (Index.handleProcess sorData st)).2 with
      | Normal st' =>
          TenderProcessor.inputText st' = TenderProcessor.inputText st
          ∧ TenderProcessor.processing st' = false
          ∧ ∃ candidates,
              iterate parsed = Ret candidates
              ∧ Forall2 carried_over candidates (TenderProcessor.items st')
      | Abrupt _ => True
      end
    ∧ (string_truthy (trim (TenderProcessor.inputText st)) = true →
       match (run w 0 (IndexV2.handleProcess sorData st)).2 with
       | Normal st' =>
           TenderProcessor.inputText st' = TenderProcessor.inputText st
           ∧ TenderProcessor.processing st' = false
           ∧ ∃ candidates,
               iterate parsed = Ret candidates
               ∧ Forall2 carried_over candidates (TenderProcessor.items st')
       | Abrupt _ => True
       end).
Proof.
  destruct (pipeline_run _ _ sorData st w (Index_body_wp sorData)) as (parsed & Hrun & _ & _ & HI).
  exists parsed. split; [done|]. split.
  - rewrite Index_handleProcess_pipeline.
    destruct_run; [|done].
    destruct HI as (candidates & items & Hit & -> & HI). split_and!; [done..|].
    exists candidates. split; [done|]. simpl. by eapply carried_over_copies.
  - intros Hnb. rewrite IndexV2_handleProcess_pipeline by done.
    destruct (pipeline_run _ _ sorData st w (IndexV2_body_wp sorData))
      as (parsed' & Hrun' & _ & _ & HI').
    assert (parsed' = parsed) as -> by congruence.
    destruct_run; [|done].
    destruct HI' as (candidates & items & Hit & -> & HI'). split_and!; [done..|].
    exists candidates. split; [done|]. simpl. by eapply carried_over_copies.
Qed.

(** The matched record of every item that a run stores is a record of the
    catalog that the run was given: no run prices an item with a record
    from elsewhere. *)
Theorem matched_record_comes_from_the_catalog (w : World)
    (sorData : list SORItem.t) (st : TenderProcessor.state) :
  match (run w 0 (Index.handleProcess sorData st)).2 with
  | Normal st' =>
      Forall (λ item, ∀ m, TenderItem.matchedRate item = Some m → In m sorData)
        (TenderProcessor.items st')
  | Abrupt _ => True
  end
  ∧ (TenderProcessor.items st = [] →
     match (run w 0 (IndexV2.handleProcess sorData st)).2 with
     | Normal st' =>
         Forall (λ item, ∀ m, TenderItem.matchedRate item = Some m → In m sorData)
           (TenderProcessor.items st')
     | Abrupt _ => True
     end).
Proof.
  split.
  - apply Index_items_satisfy. by intros p item [(_ & _ & _ & _ & Hin) _].
  - apply IndexV2_items_satisfy. by intros p item [(_ & _ & _ & _ & Hin) _].
Qed.

(** [findBestMatchingItem] never throws and makes at most one call; it
    returns [null] or a truthy value: [null] when the catalog is empty, when
    the call is rejected, when the answer does not parse, and when the
    parsed value has no truthy [matchedId] (the values [null] and
    [undefined] included, on which reading the property throws). *)
Theorem findBestMatchingItem_degrades_to_null (w : World) (n : nat)
    (targetItemName targetScope : JSValue) (dbItems : list DbItem) :
  ∃ t v,
    run w n (findBestMatchingItem targetItemName targetScope dbItems) = (t, Normal v)
    ∧ (v = JNull ∨ truthy v = true)
    ∧ (dbItems = [] → t = [] ∧ v = JNull)
    ∧ (dbItems ≠ [] →
       t = [EvGenerateContent (FindBestMatchPrompt targetItemName targetScope dbItems)]
       ∧ match model_answer w n (FindBestMatchPrompt targetItemName targetScope dbItems) with
         | Rejects => v = JNull
         | Resolves text =>
             match JSON_parse (text_or text "{}") with
             | None => v = JNull
             | Some parsed => v = js_or (field parsed "matchedId") JNull
             end
         end).
Proof.
  unfold findBestMatchingItem. destruct dbItems as [|d dbItems]; simpl.
  { exists [], JNull. split_and!; auto. done. }
  unfold_prog. simpl.
  destruct (model_answer w n _) as [|text]; simpl.
  { do 2 eexists. split_and!; eauto. done. }
  destruct (JSON_parse (text_or text "{}")) as [parsed|]; simpl.
  2: { do 2 eexists. split_and!; eauto. done. }
  assert (∀ v, js_or v JNull = JNull ∨ truthy (js_or v JNull) = true) as Hor.
  { intros v. unfold js_or. destruct (truthy v) eqn:Hv; auto. }
  destruct parsed; simpl; do 2 eexists; (split_and!; [done| |done|done]); auto.
Qed.

End OrchestratorRuns.

Lemma has_status_cases (item : TenderItem.t) :
  status_invariant item →
  match TenderItem.matchedRate item with
  | Some _ =>
      has_status no_match item = false
      ∧ has_status matched item = negb (has_status review item)
  | None =>
      has_status no_match item = true
      ∧ has_status matched item = false ∧ has_status review item = false
  end.
Proof.
  unfold status_invariant, has_status. intros [Hst Hnone].
  destruct (TenderItem.matchedRate item) as [m|].
  - destruct (TenderItem.status item); try done.
    + by destruct Hst as [?|[?|?]].
    + destruct Hnone as [_ Hnone]. by specialize (Hnone eq_refl).
  - destruct Hnone as [Hnone _]. by rewrite (Hnone eq_refl).
Qed.

Lemma matchedCount_statuses (items : list TenderItem.t) :
  Forall status_invariant items →
  IndexV2.matchedCount items = (count_status matched items + count_status review items)%nat
  ∧ (IndexV2.matchedCount items + count_status no_match items)%nat = length items.
Proof.
  unfold IndexV2.matchedCount, count_status.
  induction 1 as [|item items Hitem%has_status_cases _ [IH1 IH2]]; [done|].
  cbn [List.filter]. destruct (TenderItem.matchedRate item) as [m|].
  - destruct Hitem as [-> ->]. destruct (has_status review item); simpl; lia.
  - destruct Hitem as (-> & -> & ->). simpl. lia.
Qed.

Section Counts.
Context `{Builtins}.

(** The number of matched items that the later variant shows under the
    total is the number of stored items whose status is [matched] or
    [review]; together with the items of status [no_match] they are all the
    items. *)
Theorem matched_count_counts_the_statuses (w : World)
    (sorData : list SORItem.t) (st : TenderProcessor.state) :
  TenderProcessor.items st = [] →
  match (run w 0 (IndexV2.handleProcess sorData st)).2 with
  | Normal st' =>
      IndexV2.matchedCount (TenderProcessor.items st')
      = (count_status matched (TenderProcessor.items st')
         + count_status review (TenderProcessor.items st'))%nat
      ∧ (IndexV2.matchedCount (TenderProcessor.items st')
         + count_status no_match (TenderProcessor.items st'))%nat
        = length (TenderProcessor.items st')
  | Abrupt _ => True
  end.
Proof.
  intros Hitems.
  pose proof (IndexV2_items_satisfy status_invariant w sorData st) as Hinv.
  destruct (run w 0 (IndexV2.handleProcess sorData st)) as [t [st'|e]]; simpl in *; [|done].
  apply matchedCount_statuses, Hinv; [|done].
  intros p item [_ ?]. by apply status_rule_invariant.
Qed.

End Counts.

(** ** The benchmark flag and the total, at NaN and without a price *)

Lemma js_eq_NaN_r (x : number) : js_eq x NaN = false.
Proof. by destruct x as [[]|[]| |[] ? ?]. Qed.

Lemma js_eq_refl (x : number) : is_nan x = false → js_eq x x = true.
Proof. intros Hx. float_order. Qed.

Lemma no_NaN_In (xs : list number) (x : number) :
  existsb is_nan xs = false → In x xs → is_nan x = false.
Proof.
  intros Hnan Hx. apply not_true_is_false. intros Hn.
  assert (existsb is_nan xs = true) by (apply existsb_exists; eauto). congruence.
Qed.

Lemma js_add_NaN_r (x : number) : js_add x NaN = NaN.
Proof. by destruct x as [[]|[]| |[] ? ?]. Qed.

Lemma fold_js_add_NaN (xs : list number) : fold_left js_add xs NaN = NaN.
Proof. induction xs as [|x xs IH]; simpl; [done|apply IH]. Qed.

Lemma filter_Permutation' {X : Type} (f : X → bool) (l l' : list X) :
  Permutation l l' → Permutation (List.filter f l) (List.filter f l').
Proof.
  induction 1 as [|x l l' _ IH|x y l|l l' l'' _ IH1 _ IH2]; simpl.
  - done.
  - destruct (f x); [by constructor|done].
  - destruct (f x), (f y); try done. apply perm_swap.
  - by etrans.
Qed.

Section Edges.
Context `{Builtins}.

Lemma same_name_filter (item r : SORItem.t) (allRates : list SORItem.t) :
  shares_name r item →
  List.filter (same_name r) allRates = List.filter (same_name item) allRates.
Proof. intros Hs. apply filter_ext. intros a. by apply same_name_shift. Qed.

(** In a group of two or more records of one name (case-insensitively),
    some record carries the benchmark flag when no rate of the group is NaN;
    a NaN rate in the group takes the flag away from every record of that
    name. *)
Theorem benchmark_exists_unless_a_rate_is_NaN
    (allRates : list SORItem.t) (item : SORItem.t) :
  (1 < length (List.filter (same_name item) allRates))%nat →
  (existsb is_nan (map SORItem.rate (List.filter (same_name item) allRates)) = false →
   ∃ r, In r allRates ∧ shares_name r item ∧ isLowest allRates r = true)
  ∧ (existsb is_nan (map SORItem.rate (List.filter (same_name item) allRates)) = true →
     ∀ r, shares_name r item → isLowest allRates r = false).
Proof.
  intros Hgroup. set (group := List.filter (same_name item) allRates) in *. split.
  - intros Hnan.
    destruct (Math_min_from_lower_bound (map SORItem.rate group) Infinity eq_refl Hnan)
      as (_ & Hlow & Hin).
    assert (∃ r, In r group ∧ js_eq (SORItem.rate r) (Math_min (map SORItem.rate group)) = true)
      as (r & Hr & Heq).
    { unfold Math_min. destruct Hin as [Hinf | Hin].
      - destruct group as [|r group]; [simpl in Hgroup; lia|].
        exists r. split; [by left|]. rewrite Hinf in Hlow |- *.
        apply Forall_inv in Hlow.
        apply js_le_antisym; [|done]. apply js_le_Infinity.
        apply (no_NaN_In _ _ Hnan). by left.
      - apply in_map_iff in Hin as (r & Hrate & Hr). exists r. split; [done|].
        rewrite <-Hrate. apply js_eq_refl, (no_NaN_In _ _ Hnan). by apply in_map. }
    apply filter_In in Hr as [Hr Hshare%same_name_shares].
    exists r. split; [done|]. split; [done|].
    unfold isLowest. rewrite (same_name_filter item r) by done. fold group.
    rewrite Heq, andb_true_r. by apply Nat.ltb_lt.
  - intros Hnan r Hshare. unfold isLowest.
    rewrite (same_name_filter item r) by done. fold group.
    unfold Math_min. rewrite Math_min_from_NaN by done.
    by rewrite js_eq_NaN_r, andb_false_r.
Qed.

(** The benchmark flag of a record of the catalog does not depend on the
    order of the catalog: it is the same under every permutation of the
    records. *)
Theorem isLowest_ignores_the_order (allRates allRates' : list SORItem.t) (item : SORItem.t) :
  Permutation allRates allRates' →
  In item allRates →
  isLowest allRates' item = isLowest allRates item.
Proof.
  intros Hperm Hitem.
  assert (In item allRates') as Hitem' by (by eapply Permutation_in).
  pose proof (filter_Permutation' (same_name item) _ _ Hperm) as Hgroup.
  assert (∀ l, In item l →
            In (SORItem.rate item) (map SORItem.rate (List.filter (same_name item) l))) as Hrate.
  { intros l Hl. apply in_map, filter_In. split; [done|]. by apply same_name_shares. }
  unfold isLowest. rewrite (Permutation_length Hgroup). f_equal.
  apply eq_true_iff_eq.
  rewrite !js_eq_Math_min by auto.
  split; apply Permutation_Forall, Permutation_map; [by symmetry|done].
Qed.

Lemma lineAmount_NaN (item : TenderItem.t) :
  (is_nan (ToNumber (TenderItem.quantity item)) = true → is_nan (lineAmount item) = true)
  ∧ (is_finite (ToNumber (TenderItem.quantity item)) = false → unpriced item →
     is_nan (lineAmount item) = true).
Proof.
  unfold lineAmount, unpriced, number_or. split.
  - destruct (ToNumber _); done.
  - destruct (TenderItem.matchedRate item) as [r|].
    + intros Hq ->. by destruct (ToNumber _) as [[]|[]| |[] ? ?].
    + intros Hq _. by destruct (ToNumber _) as [[]|[]| |[] ? ?].
Qed.

(** A line amount that is NaN makes the grand total NaN, wherever the line
    stands among the items; the amount of a line is NaN when its quantity
    does not convert to a number, and when its quantity is not finite and
    the line has no price. *)
Theorem one_NaN_line_makes_the_total_NaN (items : list TenderItem.t) (item : TenderItem.t) :
  In item items →
  (is_nan (lineAmount item) = true → calculateTotal items = NaN)
  ∧ (is_nan (ToNumber (TenderItem.quantity item)) = true → is_nan (lineAmount item) = true)
  ∧ (is_finite (ToNumber (TenderItem.quantity item)) = false → unpriced item →
     is_nan (lineAmount item) = true).
Proof.
  intros Hitem. split; [|apply lineAmount_NaN].
  intros Hnan. rewrite calculateTotal_in_order. generalize zero.
  induction items as [|a items IH]; intros acc; simpl; [done|].
  destruct Hitem as [-> | Hitem].
  - destruct (lineAmount item) as [| | |]; try done.
    rewrite js_add_NaN_r. apply fold_js_add_NaN.
  - by apply IH.
Qed.

Lemma lineAmount_unpriced (item : TenderItem.t) :
  unpriced item → is_finite (ToNumber (TenderItem.quantity item)) = true →
  js_add zero (lineAmount item) = zero.
Proof.
  unfold lineAmount, unpriced, number_or.
  destruct (TenderItem.matchedRate item) as [r|].
  - intros ->. by destruct (ToNumber _) as [[]|[]| |[] ? ?].
  - intros _. by destruct (ToNumber _) as [[]|[]| |[] ? ?].
Qed.

(** A quotation none of whose lines has a price (no matched record, or a
    rate that is zero or NaN) totals [+0], when every quantity converts to a
    finite number. *)
Theorem unpriced_quotation_totals_zero (items : list TenderItem.t) :
  Forall (λ item, unpriced item ∧ is_finite (ToNumber (TenderItem.quantity item)) = true) items →
  calculateTotal items = zero.
Proof.
  unfold calculateTotal. induction 1 as [|item items [Hu Hf] _ IH]; cbn [fold_left]; [done|].
  by rewrite lineAmount_unpriced.
Qed.

End Edges.

(** ** The catalog: delete, add and import *)

Lemma filter_id_In (id : string) (l : list SORItem.t) (r : SORItem.t) :
  In r (List.filter (λ item, negb (String.eqb (SORItem.id item) id)) l)
  ↔ In r l ∧ SORItem.id r ≠ id.
Proof.
  rewrite filter_In, negb_true_iff, String.eqb_neq. done.
Qed.

Lemma filter_id_all (id : string) (l : list SORItem.t) :
  Forall (λ r, SORItem.id r ≠ id) l →
  List.filter (λ item, negb (String.eqb (SORItem.id item) id)) l = l.
Proof.
  induction 1 as [|r l Hr _ IH]; simpl; [done|].
  apply String.eqb_neq in Hr. rewrite Hr. simpl. by rewrite IH.
Qed.

Lemma filter_sublist {X : Type} (f : X → bool) (l : list X) : sublist (List.filter f l) l.
Proof.
  induction l as [|x l IH]; simpl; [constructor|].
  destruct (f x); by constructor.
Qed.

(** Deleting by id removes the records of that id, all of them, and nothing
    else: the other records stay, in their order; the view, the form, the
    edited record and the query are untouched; deleting an id that no
    record has changes nothing, and deleting twice is deleting once. *)
Theorem deleteRate_removes_exactly_that_id (id : string) (st : App.state) :
  (∀ r, In r (App.sorData (deleteRate id st)) ↔ In r (App.sorData st) ∧ SORItem.id r ≠ id)
  ∧ sublist (App.sorData (deleteRate id st)) (App.sorData st)
  ∧ (Forall (λ r, SORItem.id r ≠ id) (App.sorData st) ↔ deleteRate id st = st)
  ∧ deleteRate id (deleteRate id st) = deleteRate id st
  ∧ App.editingItem (deleteRate id st) = App.editingItem st
  ∧ App.isFormOpen (deleteRate id st) = App.isFormOpen st
  ∧ App.view (deleteRate id st) = App.view st
  ∧ App.searchQuery (deleteRate id st) = App.searchQuery st.
Proof.
  unfold deleteRate. destruct st as [view sorData isFormOpen editingItem searchQuery]. simpl.
  split_and!; try done.
  - intros r. apply filter_id_In.
  - apply filter_sublist.
  - split.
    + intros Hall. unfold App.setSorData. simpl. by rewrite filter_id_all.
    + unfold App.setSorData. simpl. intros [= Heq]. rewrite <-Heq.
      apply Forall_forall. intros r Hr%list_elem_of_In%filter_id_In. tauto.
  - unfold App.setSorData. simpl. f_equal. rewrite filter_id_all; [done|].
    apply Forall_forall. intros r Hr%list_elem_of_In%filter_id_In. tauto.
Qed.

Lemma run_new_record (w : World) (n : nat) (item : RateFields.t) :
  run w n (new_record item)
  = ([EvRandomUUID; EvDateNow], Normal (stamped item (uuid_answer w n) (clock_answer w (S n)))).
Proof. unfold new_record. unfold_prog. reflexivity. Qed.

Lemma run_mapM_new_record (w : World) (items : list RateFields.t) : ∀ n,
  run w n (mapM new_record items) = (import_events items, Normal (imported w n items)).
Proof.
  induction items as [|item items IH]; intros n; [done|].
  cbn [mapM]. rewrite run_bind, run_new_record. cbn -[mapM run].
  rewrite run_bind.
  replace (n + 2)%nat with (S (S n)) by lia. rewrite IH. simpl.
  by rewrite app_nil_r.
Qed.

(** While no record is being edited, submitting the form appends one
    record to the catalog, with the submitted fields, the id that
    [crypto.randomUUID()] gives and the time that [Date.now()] gives, and
    closes the form; when no record had that id, deleting the new id gives
    the catalog back. *)
Theorem add_then_delete_restores_the_catalog (w : World) (n : nat)
    (item : RateFields.t) (st : App.state) :
  App.editingItem st = None →
  Forall (λ r, SORItem.id r ≠ uuid_answer w n) (App.sorData st) →
  ∃ st1,
    run w n (handleAddOrUpdateRate item st) = ([EvRandomUUID; EvDateNow], Normal st1)
    ∧ App.sorData st1
      = App.sorData st ++ [stamped item (uuid_answer w n) (clock_answer w (S n))]
    ∧ App.isFormOpen st1 = false
    ∧ App.sorData (deleteRate (uuid_answer w n) st1) = App.sorData st.
Proof.
  intros Hadd Hfresh. unfold handleAddOrUpdateRate. rewrite Hadd. simpl.
  eexists. split; [done|]. simpl. split_and!; [done..|].
  rewrite List.filter_app, filter_id_all by done. simpl.
  by rewrite String.eqb_refl, app_nil_r.
Qed.

Lemma run_addBulkRates (w : World) (n : nat) (items : list RateFields.t) (st : App.state) :
  run w n (addBulkRates items st)
  = (import_events items,
     Normal (App.setIsFormOpen false
               (App.setSorData (App.sorData st ++ imported w n items) st))).
Proof.
  unfold addBulkRates. rewrite run_bind, run_mapM_new_record. simpl.
  by rewrite app_nil_r.
Qed.

(** A bulk import never throws: it draws an id and a time per item, in
    the order of the items, appends one record per item to the catalog, each
    with the five fields of its item, leaves the records that were there
    and the edited record untouched, and closes the form. *)
Theorem addBulkRates_appends_one_record_per_item (w : World) (n : nat)
    (items : list RateFields.t) (st : App.state) :
  run w n (addBulkRates items st)
  = (import_events items,
     Normal (App.setIsFormOpen false
               (App.setSorData (App.sorData st ++ imported w n items) st)))
  ∧ Forall2 carries items (imported w n items)
  ∧ (∀ i r, imported w n items !! i = Some r →
       SORItem.id r = uuid_answer w (n + 2 * i)
       ∧ SORItem.timestamp r = clock_answer w (n + 2 * i + 1)).
Proof.
  split_and!.
  - apply run_addBulkRates.
  - revert n. induction items as [|item items IH]; intros n; simpl; constructor; [|done].
    by repeat split.
  - revert n. induction items as [|item items IH]; intros n i r; simpl; [done|].
    destruct i as [|i]; simpl.
    + intros [= <-]. simpl. by rewrite !Nat.add_0_r, Nat.add_1_r.
    + intros Hr. apply IH in Hr as [-> ->]. split; f_equal; lia.
Qed.

Lemma imported_ids (w : World) (items : list RateFields.t) : ∀ n,
  SORItem.id <$> imported w n items
  = (λ i, uuid_answer w (n + 2 * i)) <$> seq 0 (length items).
Proof.
  induction items as [|item items IH]; intros n; simpl; [done|].
  rewrite Nat.add_0_r. f_equal. rewrite IH, <-fmap_S_seq, <-list_fmap_compose.
  apply list_fmap_ext. intros _ i _. simpl. f_equal. lia.
Qed.

(** The ids of the catalog stay pairwise distinct under each handler that
    changes the catalog: under a delete; under a submit of the form, given
    that the id drawn for a new record is not in the catalog; and under a
    bulk import, given that the ids drawn are new and pairwise distinct. *)
Theorem catalog_ids_stay_unique (w : World) (n : nat) (st : App.state) :
  NoDup (catalog_ids st) →
  (∀ id, NoDup (catalog_ids (deleteRate id st)))
  ∧ (∀ item,
       (App.editingItem st = None → uuid_answer w n ∉ catalog_ids st) →
       ∃ t st', run w n (handleAddOrUpdateRate item st) = (t, Normal st')
                ∧ NoDup (catalog_ids st'))
  ∧ (∀ items,
       NoDup (catalog_ids st ++ ((λ i, uuid_answer w (n + 2 * i)) <$> seq 0 (length items))) →
       ∃ t st', run w n (addBulkRates items st) = (t, Normal st')
                ∧ NoDup (catalog_ids st')).
Proof.
  unfold catalog_ids. intros Hids. split_and!.
  - intros id. unfold deleteRate. simpl.
    eapply sublist_NoDup; [exact Hids|]. apply fmap_sublist, filter_sublist.
  - intros item Hfresh. unfold handleAddOrUpdateRate.
    destruct (App.editingItem st) as [editing|]; simpl.
    + do 2 eexists. split; [done|]. simpl.
      rewrite <-list_fmap_compose.
      erewrite list_fmap_ext; [exact Hids|]. intros _ r _. simpl.
      by destruct (String.eqb _ _).
    + do 2 eexists. split; [done|]. simpl.
      rewrite fmap_app. simpl. apply NoDup_app. split_and!; [done| |].
      * intros id Hid ->%list_elem_of_singleton. by apply Hfresh.
      * apply NoDup_singleton.
  - intros items Hfresh. do 2 eexists.
    split; [apply run_addBulkRates|]. simpl.
    by rewrite fmap_app, imported_ids.
Qed.

Lemma unique_id_In (l : list SORItem.t) (e r : SORItem.t) :
  NoDup (SORItem.id <$> l) → In e l → In r l → SORItem.id r = SORItem.id e → r = e.
Proof.
  intros Hids He Hr Hid.
  apply list_elem_of_In, list_elem_of_lookup in He as [i Hi].
  apply list_elem_of_In, list_elem_of_lookup in Hr as [j Hj].
  assert (i = j) as ->; [|congruence].
  eapply NoDup_lookup; [exact Hids|..]; rewrite list_lookup_fmap.
  - by rewrite Hi.
  - rewrite Hj. simpl. by rewrite Hid.
Qed.

Section Resave.
Context `{Numerals}.

(** Opening a record in the form and saving it as it stands leaves the
    catalog as it was, closes the form and ends the edit, when the ids of
    the catalog are pairwise distinct and the rate of the record reads back
    from its text ([parseFloat(rate.toString())] is the rate). *)
Theorem resaving_a_record_changes_nothing (w : World) (n : nat)
    (st : App.state) (form : RateForm.state) (editing : SORItem.t) :
  App.editingItem st = Some editing →
  In editing (App.sorData st) →
  NoDup (catalog_ids st) →
  parseFloat (Number_toString (SORItem.rate editing)) = SORItem.rate editing →
  ∃ st',
    run w n (handleAddOrUpdateRate (submitted (editEffect (Some editing) form)) st)
    = ([], Normal st')
    ∧ App.sorData st' = App.sorData st
    ∧ App.isFormOpen st' = false
    ∧ App.editingItem st' = None.
Proof.
  intros Hediting Hin Hids Hrate. unfold handleAddOrUpdateRate. rewrite Hediting. simpl.
  eexists. split; [done|]. simpl. split_and!; [|done..].
  rewrite <-(list_fmap_id (App.sorData st)) at 2.
  apply list_fmap_ext. intros i r Hr. simpl.
  destruct (String.eqb_spec (SORItem.id r) (SORItem.id editing)) as [Hid|]; [|done].
  assert (r = editing) as ->.
  { eapply unique_id_In; [exact Hids|done| |done].
    apply list_elem_of_In, list_elem_of_lookup. eauto. }
  unfold replace_fields. simpl. rewrite Hrate. by destruct editing.
Qed.

End Resave.

(** ** Search and sort *)

Lemma append_String (c : ascii) (s t : string) :
  (String c s ++ t)%string = String c (s ++ t)%string.
Proof. reflexivity. Qed.

Lemma prefix_spec (q s : string) : String.prefix q s = true ↔ ∃ after, s = (q ++ after)%string.
Proof.
  revert s. induction q as [|c q IH]; intros s; simpl.
  { destruct s; split; eauto. }
  destruct s as [|c' s]; simpl.
  { split; [done|]. by intros [after ?]. }
  destruct (ascii_dec c c') as [->|Hne].
  - rewrite IH. split; intros [after Hs]; exists after; rewrite append_String in *; congruence.
  - split; [done|]. intros [after Hs]. rewrite append_String in Hs. congruence.
Qed.

Lemma includes_spec (s q : string) : includes s q = true ↔ contains s q.
Proof.
  unfold contains. induction s as [|c s IH]; cbn [includes].
  - rewrite orb_false_r, prefix_spec. split.
    + intros [after Hs]. by exists EmptyString, after.
    + intros ([|? before] & after & Hs); [eauto|done].
  - rewrite orb_true_iff, IH, prefix_spec. split.
    + intros [[after Hs] | (before & after & Hs)].
      * by exists EmptyString, after.
      * exists (String c before), after. by rewrite append_String, Hs.
    + intros ([|c' before] & after & Hs).
      * left. eauto.
      * right. rewrite append_String in Hs. injection Hs as _ Hs. eauto.
Qed.

Lemma includes_empty (s : string) : includes s EmptyString = true.
Proof. apply includes_spec. by exists EmptyString, s. Qed.

Lemma filter_all {X : Type} (f : X → bool) (l : list X) :
  (∀ x, f x = true) → List.filter f l = l.
Proof. intros Hf. induction l as [|x l IH]; simpl; [done|]. by rewrite Hf, IH. Qed.

Lemma filter_sublist_filter {X : Type} (f g : X → bool) (l : list X) :
  (∀ x, f x = true → g x = true) → sublist (List.filter f l) (List.filter g l).
Proof.
  intros Hfg. induction l as [|x l IH]; simpl; [constructor|].
  destruct (f x) eqn:Hf.
  - rewrite (Hfg x Hf). by constructor.
  - destruct (g x); [by constructor|done].
Qed.

Section Search.
Context `{Builtins}.

(** The search of the single-file variants lists, in the order of the
    catalog, the records whose name in lower case holds the query in lower
    case as a run of consecutive characters (in the later variant: whose
    name or source does); what [index.tsx] lists, the later variant lists
    too; a query whose lower case is empty lists the whole catalog. *)
Theorem filteredRates_lists_the_records_that_hold_the_query (st : App.state) :
  (∀ r, In r (Index.filteredRates st) ↔
        In r (App.sorData st)
        ∧ contains (toLowerCase (SORItem.name r)) (toLowerCase (App.searchQuery st)))
  ∧ (∀ r, In r (IndexV2.filteredRates st) ↔
          In r (App.sorData st)
          ∧ (contains (toLowerCase (SORItem.name r)) (toLowerCase (App.searchQuery st))
             ∨ contains (toLowerCase (SORItem.source r)) (toLowerCase (App.searchQuery st))))
  ∧ sublist (Index.filteredRates st) (IndexV2.filteredRates st)
  ∧ sublist (IndexV2.filteredRates st) (App.sorData st)
  ∧ (toLowerCase (App.searchQuery st) = EmptyString →
     Index.filteredRates st = App.sorData st
     ∧ IndexV2.filteredRates st = App.sorData st).
Proof.
  unfold Index.filteredRates, IndexV2.filteredRates. split_and!.
  - intros r. by rewrite filter_In, includes_spec.
  - intros r. by rewrite filter_In, orb_true_iff, !includes_spec.
  - apply filter_sublist_filter. intros r ->. done.
  - apply filter_sublist.
  - intros ->. split; apply filter_all; intros r; by rewrite !includes_empty.
Qed.

End Search.

Lemma js_lt_canon_zero (s : bool) (c : positive) : js_lt (canon s c) zero = s.
Proof. by destruct s. Qed.

Lemma js_sub_sign (a b : N) :
  (a < 2 ^ 53)%N → (b < 2 ^ 53)%N →
  js_lt (js_sub (ofN a) (ofN b)) zero = (a <? b)%N.
Proof.
  intros Ha Hb. destruct a as [|a], b as [|b].
  - done.
  - rewrite (ofN_pos b) by lia. done.
  - rewrite (ofN_pos a) by lia. done.
  - rewrite !ofN_pos by lia.
    assert (Zpos (digits2_pos a) ≤ 53) as Hda by (apply digits_le_53; lia).
    assert (Zpos (digits2_pos b) ≤ 53) as Hdb by (apply digits_le_53; lia).
    unfold js_sub, canon, SFsub, cond_Zopp.
    set (da := Zpos (digits2_pos a)) in *. set (db := Zpos (digits2_pos b)) in *.
    set (ez := Z.min (da - 53) (db - 53)).
    set (X := Zpos (shl_align (Z.to_pos (Zpos a * 2 ^ (53 - da))) (da - 53) ez).1).
    set (Y := Zpos (shl_align (Z.to_pos (Zpos b * 2 ^ (53 - db))) (db - 53) ez).1).
    assert (X = Zpos a * 2 ^ (- ez)) as HX.
    { subst X. rewrite shl_align_value by lia. subst da. rewrite canon_mantissa by done.
      rewrite <-Z.mul_assoc, <-Z.pow_add_r by lia. do 2 f_equal. lia. }
    assert (Y = Zpos b * 2 ^ (- ez)) as HY.
    { subst Y. rewrite shl_align_value by lia. subst db. rewrite canon_mantissa by done.
      rewrite <-Z.mul_assoc, <-Z.pow_add_r by lia. do 2 f_equal. lia. }
    assert (0 < 2 ^ (- ez)) as Hpow by (apply Z.pow_pos_nonneg; lia).
    change (N.pos a <? N.pos b)%N with (Pos.ltb a b).
    destruct (X - Y) as [|m|m] eqn:Hm; simpl binary_normalize.
    + assert (a = b) as -> by nia. by rewrite Pos.ltb_irrefl.
    + assert (Zpos b < Zpos a) as Hlt by nia.
      rewrite (binary_round_exact false m (a - b)).
      * rewrite js_lt_canon_zero. symmetry. apply Pos.ltb_ge. lia.
      * apply digits_le_53. lia.
      * lia.
      * rewrite Pos2Z.inj_sub by lia. nia.
    + assert (Zpos a < Zpos b) as Hlt by nia.
      rewrite (binary_round_exact true m (b - a)).
      * rewrite js_lt_canon_zero. symmetry. apply Pos.ltb_lt. lia.
      * apply digits_le_53. lia.
      * lia.
      * rewrite Pos2Z.inj_sub by lia. nia.
Qed.

Section Sorting.
Context {A : Type} (comparefn : A → A → number).

Lemma insert_by_Permutation (x : A) (l : list A) : Permutation (insert_by comparefn x l) (x :: l).
Proof.
  induction l as [|y l IH]; simpl; [done|].
  destruct (js_lt (comparefn y x) zero); [|done].
  rewrite IH. apply perm_swap.
Qed.

Lemma Array_sort_Permutation (l : list A) : Permutation (Array_sort comparefn l) l.
Proof.
  induction l as [|x l IH]; simpl; [done|].
  rewrite insert_by_Permutation. by constructor.
Qed.

Context (key : A → N) (good : A → Prop).
Hypothesis comparefn_key :
  ∀ x y, good x → good y → js_lt (comparefn y x) zero = (key x <? key y)%N.

Lemma insert_by_sorted (x : A) (l : list A) :
  good x → Forall good l →
  StronglySorted (λ a b, (key b ≤ key a)%N) l →
  StronglySorted (λ a b, (key b ≤ key a)%N) (insert_by comparefn x l).
Proof.
  intros Hx Hgood. induction 1 as [|y l Hl IH Hy]; simpl; [by repeat constructor|].
  apply Forall_cons in Hgood as [Hgy Hgood].
  rewrite comparefn_key by done. destruct (N.ltb_spec (key x) (key y)) as [Hlt|Hge].
  - constructor; [auto|].
    eapply Permutation_Forall; [symmetry; apply insert_by_Permutation|].
    constructor; [lia|done].
  - constructor; [by constructor|]. constructor; [done|].
    eapply Forall_impl; [exact Hy|]. simpl. intros z Hz. lia.
Qed.

Lemma Array_sort_good (l : list A) : Forall good l → Forall good (Array_sort comparefn l).
Proof. intros Hl. eapply Permutation_Forall; [symmetry; apply Array_sort_Permutation|done]. Qed.

Lemma Array_sort_sorted (l : list A) :
  Forall good l → StronglySorted (λ a b, (key b ≤ key a)%N) (Array_sort comparefn l).
Proof.
  induction 1 as [|x l Hx Hl IH]; simpl; [constructor|].
  apply insert_by_sorted; [done|by apply Array_sort_good|done].
Qed.

Lemma insert_by_stable (t : N) (x : A) (l : list A) :
  good x → Forall good l →
  List.filter (λ a, (key a =? t)%N) (insert_by comparefn x l)
  = List.filter (λ a, (key a =? t)%N) (x :: l).
Proof.
  intros Hx. induction 1 as [|y l Hgy Hgood IH]; [done|]. cbn [insert_by].
  rewrite comparefn_key by done.
  destruct (N.ltb_spec (key x) (key y)) as [Hlt|Hge]; [|done].
  cbn [List.filter] in *. rewrite IH.
  destruct (N.eqb_spec (key y) t) as [Hyt|Hyt], (N.eqb_spec (key x) t) as [Hxt|Hxt];
    try done. lia.
Qed.

Lemma Array_sort_stable (t : N) (l : list A) :
  Forall good l →
  List.filter (λ a, (key a =? t)%N) (Array_sort comparefn l) = List.filter (λ a, (key a =? t)%N) l.
Proof.
  induction 1 as [|x l Hx Hl IH]; [done|]. cbn [Array_sort foldr].
  rewrite insert_by_stable by (done || by apply Array_sort_good). fold (Array_sort comparefn l).
  cbn [List.filter]. by rewrite IH.
Qed.

End Sorting.

Section Grouped.
Context `{Builtins}.

(** When the timestamps of the catalog are naturals below [2^53], as
    [Date.now()] gives them, [groupedRates] of [App.tsx] lists the records
    whose name, scope or source holds the query, the newest first, and
    records of the same time in the order of the catalog; under a query
    whose lower case is empty it is a permutation of the catalog. *)
Theorem groupedRates_lists_the_matches_newest_first (ms : SORItem.t → N) (st : App.state) :
  Forall (clocked ms) (App.sorData st) →
  (∀ r, In r (Modular.groupedRates st) ↔
        In r (App.sorData st)
        ∧ (contains (toLowerCase (SORItem.name r)) (toLowerCase (App.searchQuery st))
           ∨ contains (toLowerCase (SORItem.scopeOfWork r)) (toLowerCase (App.searchQuery st))
           ∨ contains (toLowerCase (SORItem.source r)) (toLowerCase (App.searchQuery st))))
  ∧ StronglySorted (λ a b, (ms b ≤ ms a)%N) (Modular.groupedRates st)
  ∧ (∀ t, List.filter (λ r, (ms r =? t)%N) (Modular.groupedRates st)
          `sublist_of` App.sorData st)
  ∧ (toLowerCase (App.searchQuery st) = EmptyString →
     Permutation (Modular.groupedRates st) (App.sorData st)).
Proof.
  intros Hclock. unfold Modular.groupedRates.
  set (shown := List.filter _ (App.sorData st)).
  set (comparefn := λ a b : SORItem.t, js_sub (SORItem.timestamp b) (SORItem.timestamp a)).
  assert (∀ x y, clocked ms x → clocked ms y →
            js_lt (comparefn y x) zero = (ms x <? ms y)%N) as Hcmp.
  { intros x y [Hx ?] [Hy ?]. subst comparefn. simpl. rewrite Hx, Hy. by apply js_sub_sign. }
  assert (Forall (clocked ms) shown) as Hshown.
  { apply Forall_forall. intros r [Hr _]%list_elem_of_In%filter_In.
    rewrite Forall_forall in Hclock. by apply Hclock, list_elem_of_In. }
  split_and!.
  - intros r. split.
    + intros Hr%(Permutation_in _ (Array_sort_Permutation comparefn shown)).
      apply filter_In in Hr as [Hr Hq]. split; [done|].
      rewrite !orb_true_iff, !includes_spec in Hq. tauto.
    + intros [Hr Hq]. apply (Permutation_in _ (Permutation_sym (Array_sort_Permutation comparefn shown))).
      apply filter_In. split; [done|].
      rewrite !orb_true_iff, !includes_spec. tauto.
  - by apply (Array_sort_sorted comparefn ms (clocked ms)).
  - intros t. rewrite (Array_sort_stable comparefn ms (clocked ms)) by done.
    etrans; apply filter_sublist.
  - intros Hq. rewrite Array_sort_Permutation. subst shown.
    rewrite filter_all; [done|]. intros r. by rewrite Hq, !includes_empty.
Qed.

End Grouped.

(** ** The export *)

Lemma code_units_app (s1 s2 : string) :
  code_units (s1 ++ s2) = code_units s1 ++ code_units s2.
Proof.
  unfold code_units. induction s1 as [|c s1 IH]; simpl; [done|]. by rewrite IH.
Qed.

Lemma code_units_inj (s1 s2 : string) : code_units s1 = code_units s2 → s1 = s2.
Proof.
  unfold code_units. revert s2. induction s1 as [|c s1 IH]; intros [|c' s2]; simpl; try done.
  intros [= Hc Hs]. f_equal; [|by apply IH].
  by rewrite <-(ascii_N_embedding c), Hc, ascii_N_embedding.
Qed.

Lemma dquote_unit (c : ascii) : Ascii.eqb c dquote = (N_of_ascii c =? 34)%N.
Proof.
  destruct (Ascii.eqb_spec c dquote) as [->|Hne]; [done|].
  symmetry. apply N.eqb_neq. intros Hc. apply Hne.
  by rewrite <-(ascii_N_embedding c), Hc.
Qed.

Section ExportFacts.
Context `{Numerals}.

Lemma read_quoted (val : string) : ∀ field record records rest,
  read_fields InField field record records (code_units (double_quotes val) ++ 34%N :: rest)
  = read_fields AfterQuote (field ++ code_units val) record records rest.
Proof.
  induction val as [|c val IH]; intros field record records rest; simpl.
  { by rewrite app_nil_r. }
  rewrite dquote_unit. change (code_units (String c val)) with (N_of_ascii c :: code_units val).
  destruct (N.eqb_spec (N_of_ascii c) 34) as [Hc|Hc].
  - change (code_units (String dquote (String dquote ?s))) with (34%N :: 34%N :: code_units s).
    simpl. rewrite IH, Hc. by rewrite <-app_assoc.
  - change (code_units (String c ?s)) with (N_of_ascii c :: code_units s).
    simpl. apply N.eqb_neq in Hc. rewrite Hc, IH. by rewrite <-app_assoc.
Qed.

Lemma generateCSV_rows (rows : list (list JSValue)) :
  Modular.generateCSV rows
  = BOM :: code_units (String.concat (String CR (String LF EmptyString)) (map csv_row rows)).
Proof. done. Qed.

Lemma read_cell (cell : JSValue) field record records rest :
  read_fields AtField field record records (code_units (csv_cell cell) ++ rest)
  = read_fields AfterQuote (cell_text cell) record records rest.
Proof.
  unfold csv_cell.
  change (code_units (String dquote ?s)) with (34%N :: code_units s).
  rewrite code_units_app.
  change (code_units (String dquote EmptyString)) with [34%N].
  rewrite <-app_comm_cons, <-app_assoc. simpl. by rewrite read_quoted.
Qed.

Lemma csv_row_cons (cell cell' : JSValue) (row : list JSValue) :
  csv_row (cell :: cell' :: row) = (csv_cell cell ++ String "," (csv_row (cell' :: row)))%string.
Proof. done. Qed.

Lemma read_row (row : list JSValue) : ∀ cell field record records,
  read_fields AtField field record records (code_units (csv_row (cell :: row)))
  = Some (records ++ [record ++ map cell_text (cell :: row)])
  ∧ ∀ rest,
      read_fields AtField field record records
        (code_units (csv_row (cell :: row)) ++ 13%N :: 10%N :: rest)
      = read_fields AtField [] [] (records ++ [record ++ map cell_text (cell :: row)]) rest.
Proof.
  induction row as [|cell' row IH]; intros cell field record records.
  - change (csv_row [cell]) with (csv_cell cell). split.
    + by rewrite <-(app_nil_r (code_units _)), read_cell.
    + intros rest. by rewrite read_cell.
  - rewrite csv_row_cons, code_units_app.
    change (code_units (String "," ?s)) with (44%N :: code_units s).
    destruct (IH cell' [] (record ++ [cell_text cell]) records) as [Hend Hmore].
    rewrite <-!app_assoc in Hend, Hmore. split.
    + rewrite read_cell. simpl. exact Hend.
    + intros rest. rewrite <-app_assoc, read_cell. simpl. apply Hmore.
Qed.

Lemma read_rows (rows : list (list JSValue)) : ∀ records,
  Forall (λ row, row ≠ []) rows →
  read_fields AtField [] [] records
    (code_units (String.concat (String CR (String LF EmptyString)) (map csv_row rows)))
  = Some (records ++ map (map cell_text) rows).
Proof.
  induction rows as [|row rows IH]; intros records Hrows.
  { simpl. by rewrite app_nil_r. }
  apply Forall_cons in Hrows as [Hrow Hrows].
  destruct row as [|cell row]; [done|].
  destruct (read_row row cell [] [] records) as [Hend Hmore].
  destruct rows as [|row' rows].
  - simpl map. cbn [String.concat]. by rewrite Hend.
  - change (String.concat ?sep (map csv_row ((cell :: row) :: row' :: rows)))
      with (csv_row (cell :: row) ++ sep ++ String.concat sep (map csv_row (row' :: rows)))%string.
    rewrite !code_units_app.
    change (code_units (String CR (String LF EmptyString))) with [13%N; 10%N].
    simpl app at 2. rewrite Hmore, IH by done. simpl. by rewrite <-app_assoc.
Qed.

Lemma generateCSV_read (rows : list (list JSValue)) :
  Forall (λ row, row ≠ []) rows →
  read_csv (Modular.generateCSV rows) = Some (map (map cell_text) rows).
Proof.
  intros Hrows. rewrite generateCSV_rows. unfold read_csv.
  change (BOM =? BOM)%N with true. cbv iota. by rewrite read_rows.
Qed.

Lemma cell_texts_inj (rows rows' : list (list JSValue)) :
  map (map cell_text) rows = map (map cell_text) rows' →
  Forall2 (Forall2 (λ cell cell', cell_text cell = cell_text cell')) rows rows'.
Proof.
  revert rows'. induction rows as [|row rows IH]; intros [|row' rows']; simpl; try done.
  intros [= Hrow Hrows]. constructor; [|by apply IH].
  clear -Hrow. revert row' Hrow.
  induction row as [|cell row IH]; intros [|cell' row']; simpl; try done.
  intros [= Hcell Hrow]. constructor; [done|by apply IH].
Qed.

(** The text that [generateCSV] returns reads back, by the rules of RFC
    4180, as the table it was given, cell by cell, whatever characters the
    cells hold (double quotes, commas and line breaks included), when no row
    is empty; [null] and [undefined] read back as the empty text.  Two
    tables without an empty row that give the same text have the same cell
    texts. *)
Theorem generateCSV_reads_back (rows : list (list JSValue)) :
  Forall (λ row, row ≠ []) rows →
  read_csv (Modular.generateCSV rows) = Some (map (map cell_text) rows)
  ∧ ∀ rows', Forall (λ row, row ≠ []) rows' →
      Modular.generateCSV rows = Modular.generateCSV rows' →
      Forall2 (Forall2 (λ cell cell', cell_text cell = cell_text cell')) rows rows'.
Proof.
  intros Hrows. split; [by apply generateCSV_read|].
  intros rows' Hrows' Heq. apply cell_texts_inj.
  apply generateCSV_read in Hrows, Hrows'. congruence.
Qed.

(** The export of the catalog reads back as the row of the five headers
    followed by one row per record, in the order of the catalog: name,
    unit, rate as [String] prints it, source, scope of work. *)
Theorem exported_catalog_reads_back (st : App.state) :
  read_csv (Modular.csvContent st)
  = Some (map code_units ["Item Name"; "Unit"; "Rate (INR)"; "Source"; "Scope of Work"]%string
          :: map (λ r, map code_units
                         [SORItem.name r; SORItem.unit r; Number_toString (SORItem.rate r);
                          SORItem.source r; SORItem.scopeOfWork r])
               (App.sorData st)).
Proof.
  unfold Modular.csvContent. rewrite generateCSV_read.
  - cbn [map]. do 2 f_equal. by rewrite map_map.
  - constructor; [done|]. apply Forall_forall. by intros row (r & <- & _)%list_elem_of_In%in_map_iff.
Qed.

End ExportFacts.

(** ** The scope check and the rate form *)

Lemma nullish_or_present (v d : JSValue) : nullish d = false → nullish (nullish_or v d) = false.
Proof. by destruct v. Qed.

Section RateServiceFacts.
Context `{Builtins}.

(** [checkScopeMatch] makes one call and never throws.  In the service
    module its result always has the three fields [isMatch], [confidence]
    and [reason], none of them [null] or [undefined]: a field that the
    answer lacks takes its default ([false], [0], "Unknown"), and a
    rejected call, an answer that does not parse and an answer that parses
    to [null] give the error result.  In [index.tsx] an answer that parses
    is returned as it is, whatever its fields. *)
Theorem checkScopeMatch_always_answers (requestedScope existingScope : string) :
  ∃ k k',
    Modular.checkScopeMatch requestedScope existingScope
    = OneCall (CheckScopePrompt requestedScope existingScope) k
    ∧ Index.checkScopeMatch requestedScope existingScope
      = OneCall (CheckScopePrompt requestedScope existingScope) k'
    ∧ (∀ response, ∃ v, k response = Ret v ∧ complete_result v)
    ∧ k Rejects = Ret scope_error ∧ k' Rejects = Ret scope_error
    ∧ (∀ text, JSON_parse (text_or text "{}") = None →
         k (Resolves text) = Ret scope_error ∧ k' (Resolves text) = Ret scope_error)
    ∧ (∀ text parsed, JSON_parse (text_or text "{}") = Some parsed →
         k' (Resolves text) = Ret parsed
         ∧ (nullish parsed = true → k (Resolves text) = Ret scope_error)
         ∧ (nullish parsed = false →
            k (Resolves text)
            = Ret (JObj [("isMatch", nullish_or (field parsed "isMatch") (JBool false));
                         ("confidence", nullish_or (field parsed "confidence") (JNum zero));
                         ("reason", nullish_or (field parsed "reason") (JStr "Unknown"))]))).
Proof.
  do 2 eexists. split; [reflexivity|]. split; [reflexivity|].
  assert (complete_result scope_error) as Herror.
  { by exists (JBool false), (JNum zero), (JStr "Error validating scope."). }
  split_and!.
  - intros [|text]; simpl; [by eexists|]. unfold_prog.
    destruct (JSON_parse (text_or text "{}")) as [parsed|]; simpl; [|by eexists].
    destruct (nullish_cases parsed) as [-> | [-> | [Hp1 Hp2]]]; simpl; [by eexists..|].
    assert (∀ key, match parsed with
                   | JUndefined | JNull => Throw TypeError
                   | JObj props => Ret (lookup_prop key props)
                   | _ => Ret JUndefined
                   end = Ret (field parsed key)) as Hget by (intros key; by destruct parsed).
    rewrite !Hget. simpl. eexists. split; [done|].
    do 3 eexists. split; [done|]. split_and!; by apply nullish_or_present.
  - done.
  - done.
  - intros text Hparse. simpl. unfold_prog. by rewrite Hparse.
  - intros text parsed Hparse. simpl. unfold_prog. rewrite Hparse. simpl. split_and!.
    + done.
    + by destruct parsed.
    + by destruct parsed.
Qed.

(** [handleScrape] makes no call on a blank text and leaves the form as
    it was; on any other text it makes one extraction call, and whatever
    the call gives it ends normally with [isProcessing] reset and the
    preview set to the parsed value, or to the empty array when the call is
    rejected or its text does not parse. *)
Theorem handleScrape_always_settles (st : RateForm.state) :
  (blank (RateForm.bulkText st) = true → handleScrape st = NoCall (Ret st))
  ∧ (string_truthy (trim (RateForm.bulkText st)) = true →
     ∃ k,
       handleScrape st = OneCall (ParseRatesPrompt (RateForm.bulkText st)) k
       ∧ ∀ response,
           ∃ extracted,
             k response
             = Ret (RateForm.mk (RateForm.mode st) false (RateForm.bulkText st) extracted
                      (RateForm.formData st))
             ∧ match response with
               | Rejects => extracted = JArr []
               | Resolves text =>
                   match JSON_parse (text_or text "[]") with
                   | Some parsed => extracted = parsed
                   | None => extracted = JArr []
                   end
               end).
Proof.
  unfold handleScrape. split.
  - intros Hblank%blank_trim. by rewrite Hblank.
  - intros ->. simpl. eexists. split; [reflexivity|].
    intros [|text]; simpl; [by eexists|]. unfold_prog.
    destruct (JSON_parse (text_or text "[]")) as [parsed|]; simpl; by eexists.
Qed.

End RateServiceFacts.

(** ** The statements on concrete inputs *)

Section Examples.
Local Existing Instance Demo.builtins.

(** The scenario of the specification: the two "Excavation" records. *)
Example excavation_benchmark :
  isLowest excavation (record "B" "Excavation" (ofZ 80)) = true
  ∧ isLowest excavation (record "A" "Excavation" (ofZ 100)) = false.
Proof. by vm_compute. Qed.

(** The scenario of the specification: "Pipe 25mm", 50 units, matched by the
    oracle with "GI Pipe 25mm" at 120. *)
Example pipe_scenario :
  statuses_of
    (run (answering "[{'name':'Pipe 25mm','quantity':50,'requestedScope':'GI pipe'}]" "P")
         0 (IndexV2.handleProcess pipes (pasted "50m of 25mm GI pipe")))
  = Some [review]
  ∧ amounts_of
      (run (answering "[{'name':'Pipe 25mm','quantity':50,'requestedScope':'GI pipe'}]" "P")
           0 (IndexV2.handleProcess pipes (pasted "50m of 25mm GI pipe")))
    = Some [ofZ 6000].
Proof. by vm_compute. Qed.

(** C1, on [index.tsx]: a candidate named "excavation" that the matcher
    resolves to the record "Excavation" has the same name case-insensitively,
    and [index.tsx] gives it the status [review], where the later variant
    gives it [matched]. *)
Example index_tsx_reviews_an_exact_name_match :
  toLowerCase "Excavation" = toLowerCase "excavation"
  ∧ statuses_of
      (run (answering "[{'name':'excavation','quantity':2,'requestedScope':'trench'}]" "A")
           0 (Index.handleProcess excavation (pasted "excavation x2")))
    = Some [review]
  ∧ statuses_of
      (run (answering "[{'name':'excavation','quantity':2,'requestedScope':'trench'}]" "A")
           0 (IndexV2.handleProcess excavation (pasted "excavation x2")))
    = Some [matched].
Proof. by vm_compute. Qed.

(** The later variant on the candidate "excavation". *)
Lemma IndexV2_status_follows_name_match_witness :
  TenderProcessor.items (pasted "excavation x2") = []
  ∧ match (run (answering "[{'name':'excavation','quantity':2,'requestedScope':'trench'}]" "A")
               0 (IndexV2.handleProcess excavation (pasted "excavation x2"))).2 with
    | Normal st' =>
        Forall (λ item,
            status_rule (TenderItem.matchedRate item) (TenderItem.name item)
              (TenderItem.status item))
          (TenderProcessor.items st')
    | Abrupt _ => True
    end.
Proof.
  split; [reflexivity|].
  apply (IndexV2_status_follows_name_match
           (answering "[{'name':'excavation','quantity':2,'requestedScope':'trench'}]" "A")
           excavation (pasted "excavation x2")).
  reflexivity.
Defined.

(** C2, on an extraction whose answer parses but is no list of candidates:
    an object, as the body of an error report is, then [null], then an array
    that holds [null].  [parseBulkItems] returns the parsed value, where the
    claim has the empty sequence, and the loop of [handleProcess], which
    stands outside the try/catch, throws a TypeError that leaves the
    orchestrator in both variants, where the claim has an empty item list
    and no exception. *)
Example parsed_non_list_leaves_handleProcess_with_a_TypeError :
  run (answering "{'error':'quota exceeded'}" "P") 0 (parseBulkItems "2 pipes")
  = ([EvGenerateContent (ParseBulkItemsPrompt "2 pipes")],
     Normal (JObj [("error", JStr "quota exceeded")]))
  ∧ run (answering "{'error':'quota exceeded'}" "P") 0
      (Index.handleProcess pipes (pasted "2 pipes"))
    = ([EvGenerateContent (ParseBulkItemsPrompt "2 pipes")], Abrupt TypeError)
  ∧ run (answering "{'error':'quota exceeded'}" "P") 0
      (IndexV2.handleProcess pipes (pasted "2 pipes"))
    = ([EvGenerateContent (ParseBulkItemsPrompt "2 pipes")], Abrupt TypeError)
  ∧ run (answering "null" "P") 0 (parseBulkItems "2 pipes")
    = ([EvGenerateContent (ParseBulkItemsPrompt "2 pipes")], Normal JNull)
  ∧ run (answering "null" "P") 0 (Index.handleProcess pipes (pasted "2 pipes"))
    = ([EvGenerateContent (ParseBulkItemsPrompt "2 pipes")], Abrupt TypeError)
  ∧ run (answering "null" "P") 0 (IndexV2.handleProcess pipes (pasted "2 pipes"))
    = ([EvGenerateContent (ParseBulkItemsPrompt "2 pipes")], Abrupt TypeError)
  ∧ run (answering "[null]" "P") 0 (parseBulkItems "2 pipes")
    = ([EvGenerateContent (ParseBulkItemsPrompt "2 pipes")], Normal (JArr [JNull]))
  ∧ run (answering "[null]" "P") 0 (Index.handleProcess pipes (pasted "2 pipes"))
    = ([EvGenerateContent (ParseBulkItemsPrompt "2 pipes")], Abrupt TypeError)
  ∧ run (answering "[null]" "P") 0 (IndexV2.handleProcess pipes (pasted "2 pipes"))
    = ([EvGenerateContent (ParseBulkItemsPrompt "2 pipes")], Abrupt TypeError).
Proof. by vm_compute. Qed.

(** A language model that rejects every call: the empty quotation. *)
Lemma extraction_failure_gives_empty_quotation_witness :
  extraction_failed (model_answer offline 0 (ParseBulkItemsPrompt "2 pipes"))
  ∧ run offline 0 (parseBulkItems "2 pipes")
    = ([EvGenerateContent (ParseBulkItemsPrompt "2 pipes")], Normal (JArr []))
  ∧ run offline 0 (Index.handleProcess pipes (pasted "2 pipes"))
    = ([EvGenerateContent (ParseBulkItemsPrompt "2 pipes")], Normal (pasted "2 pipes"))
  ∧ (string_truthy (trim "2 pipes") = true →
     run offline 0 (IndexV2.handleProcess pipes (pasted "2 pipes"))
     = ([EvGenerateContent (ParseBulkItemsPrompt "2 pipes")], Normal (pasted "2 pipes"))).
Proof.
  split; [by left|].
  apply (extraction_failure_gives_empty_quotation offline pipes (pasted "2 pipes")).
  by left.
Defined.

(** Two well-formed candidates give two items, in both variants. *)
Lemma handleProcess_completes_witness :
  (run (answering "[{'name':'excavation','quantity':2},{'name':'Pipe 25mm'}]" "A")
       0 (parseBulkItems "excavation x2, pipe")).2
  = Normal (JArr [JObj [("name", JStr "excavation"); ("quantity", JNum (ofZ 2))];
                  JObj [("name", JStr "Pipe 25mm")]])
  ∧ Forall well_formed_candidate
      [JObj [("name", JStr "excavation"); ("quantity", JNum (ofZ 2))];
       JObj [("name", JStr "Pipe 25mm")]]
  ∧ ∃ items,
      (run (answering "[{'name':'excavation','quantity':2},{'name':'Pipe 25mm'}]" "A")
           0 (IndexV2.handleProcess excavation (pasted "excavation x2, pipe"))).2
      = Normal (finished (pasted "excavation x2, pipe") items)
      ∧ length items = 2%nat.
Proof.
  assert (Forall well_formed_candidate
      [JObj [("name", JStr "excavation"); ("quantity", JNum (ofZ 2))];
       JObj [("name", JStr "Pipe 25mm")]]) as Hwf.
  { repeat constructor; by do 2 eexists. }
  assert ((run (answering "[{'name':'excavation','quantity':2},{'name':'Pipe 25mm'}]" "A")
               0 (parseBulkItems "excavation x2, pipe")).2
          = Normal (JArr [JObj [("name", JStr "excavation"); ("quantity", JNum (ofZ 2))];
                          JObj [("name", JStr "Pipe 25mm")]])) as Hparsed
    by (vm_compute; reflexivity).
  split; [exact Hparsed|]. split; [exact Hwf|].
  apply (handleProcess_completes
           (answering "[{'name':'excavation','quantity':2},{'name':'Pipe 25mm'}]" "A")
           excavation (pasted "excavation x2, pipe") _ _ Hparsed eq_refl Hwf).
  reflexivity.
Defined.

(** C4, as stated, fails: a candidate of quantity [-5] keeps its quantity;
    [-5] is not positive and is not 1. *)
Example negative_quantity_is_kept :
  quantities_of
    (run (answering "[{'name':'Pipe','quantity':-5,'requestedScope':'GI pipe'}]" "P")
         0 (Index.handleProcess pipes (pasted "pipe -5")))
  = Some [JNum (ofZ (-5))]
  ∧ quantities_of
      (run (answering "[{'name':'Pipe','quantity':-5,'requestedScope':'GI pipe'}]" "P")
           0 (IndexV2.handleProcess pipes (pasted "pipe -5")))
    = Some [JNum (ofZ (-5))]
  ∧ js_lt zero (ofZ (-5)) = false
  ∧ js_eq (ofZ (-5)) one = false.
Proof. by vm_compute. Qed.

(** C5 on a text of three spaces. *)
Lemma blank_text_builds_nothing_witness :
  blank "   " = true
  ∧ TenderProcessor.items (pasted "   ") = []
  ∧ builds_nothing (run offline 0 (IndexV2.handleProcess pipes (pasted "   ")))
  ∧ builds_nothing (run offline 0 (IndexV2.buildQuote_click pipes (pasted "   ")))
  ∧ builds_nothing (run offline 0 (Index.buildQuote_click pipes (pasted "   "))).
Proof.
  split; [reflexivity|]. split; [reflexivity|].
  apply (blank_text_builds_nothing offline 0 pipes (pasted "   ")); reflexivity.
Defined.

(** C6 on the two "Excavation" records: the one at 80 is flagged, the one
    at 100 is not. *)
Lemma isLowest_flags_the_minimum_of_a_shared_name_witness :
  In (record "B" "Excavation" (ofZ 80)) excavation
  ∧ isLowest excavation (record "B" "Excavation" (ofZ 80)) = true
  ∧ isLowest excavation (record "A" "Excavation" (ofZ 100)) = false.
Proof.
  assert (In (record "B" "Excavation" (ofZ 80)) excavation) as HB by (right; left; reflexivity).
  assert (In (record "A" "Excavation" (ofZ 100)) excavation) as HA by (left; reflexivity).
  split; [exact HB|]. split.
  - destruct (isLowest_flags_the_minimum_of_a_shared_name excavation _ HB) as (Hiff & _ & _).
    apply Hiff. split.
    + exists 0%nat, 1%nat, (record "A" "Excavation" (ofZ 100)),
        (record "B" "Excavation" (ofZ 80)).
      repeat split; discriminate.
    + intros r [<-|[<-|[]]] _; reflexivity.
  - destruct (isLowest_flags_the_minimum_of_a_shared_name excavation _ HA) as (_ & _ & Hlower).
    apply (Hlower (record "B" "Excavation" (ofZ 80)) HB); reflexivity.
Defined.

(** C7 on the excavation catalog, while the record "B" is edited. *)
Lemma update_replaces_fields_and_keeps_the_rest_witness :
  App.editingItem editing_B = Some (record "B" "Excavation" (ofZ 80))
  ∧ ∃ st',
      run offline 0 (handleAddOrUpdateRate trenching editing_B) = ([], Normal st')
      ∧ length (App.sorData st') = length (App.sorData editing_B)
      ∧ ∀ i r, App.sorData editing_B !! i = Some r →
          ∃ r', App.sorData st' !! i = Some r'
            ∧ SORItem.id r' = SORItem.id r
            ∧ SORItem.timestamp r' = SORItem.timestamp r
            ∧ (SORItem.id r = SORItem.id (record "B" "Excavation" (ofZ 80)) →
               carries trenching r')
            ∧ (SORItem.id r ≠ SORItem.id (record "B" "Excavation" (ofZ 80)) → r' = r).
Proof.
  split; [reflexivity|].
  apply (update_replaces_fields_and_keeps_the_rest offline 0 trenching editing_B).
  reflexivity.
Defined.

(** The same update, evaluated. *)
Example update_of_B :
  run offline 0 (handleAddOrUpdateRate trenching editing_B)
  = ([], Normal (App.mk database
                   [record "A" "Excavation" (ofZ 100);
                    SORItem.mk "B" "Trenching" "m" (ofZ 75) "by hand" "quote 7" zero]
                   false None "")).
Proof. reflexivity. Qed.

(** C8, on the single-file variants: an unparseable payload makes the
    mount effect throw, where [App.tsx] falls back on the empty catalog. *)
Example unparseable_catalog_aborts_the_mount_effect :
  JSON_parse "{oops" = None
  ∧ run offline 0 (IndexV2.loadEffect {[ IndexV2.storage_key := "{oops"%string ]} empty_app)
    = ([], Abrupt SyntaxError)
  ∧ run offline 0 (Index.loadEffect {[ Index.storage_key := "{oops"%string ]} empty_app)
    = ([], Abrupt SyntaxError)
  ∧ run offline 0 (Modular.loadEffect {[ Modular.storage_key := "{oops"%string ]} empty_app)
    = ([], Normal (Typed empty_app)).
Proof. by vm_compute. Qed.

Local Existing Instance Demo.numerals.

(** An extraction that answers an object where an array is expected. *)
Lemma handleProcess_rejects_ill_formed_extraction_witness :
  (run (answering "{'items':[]}" "P") 0 (parseBulkItems "2 pipes")).2
  = Normal (JObj [("items", JArr [])])
  ∧ not_a_candidate_list (JObj [("items", JArr [])])
  ∧ (run (answering "{'items':[]}" "P") 0 (Index.handleProcess pipes (pasted "2 pipes"))).2
    = Abrupt TypeError
  ∧ (run (answering "{'items':[]}" "P") 0 (IndexV2.handleProcess pipes (pasted "2 pipes"))).2
    = Abrupt TypeError.
Proof.
  assert ((run (answering "{'items':[]}" "P") 0 (parseBulkItems "2 pipes")).2
          = Normal (JObj [("items", JArr [])])) as Hparsed by (vm_compute; reflexivity).
  assert (not_a_candidate_list (JObj [("items", JArr [])])) as Hbad by (left; reflexivity).
  split; [exact Hparsed|]. split; [exact Hbad|].
  destruct (handleProcess_rejects_ill_formed_extraction (answering "{'items':[]}" "P")
              pipes (pasted "2 pipes") _ Hparsed Hbad) as (HIndex & _ & HIndexV2).
  split; [exact HIndex|]. apply HIndexV2. reflexivity.
Defined.

(** The same failure on an array that holds [null]. *)
Example null_candidate_aborts_the_run :
  run (answering "[{'name':'Pipe'},null]" "P") 0 (Index.handleProcess pipes (pasted "2 pipes"))
  = ([EvGenerateContent (ParseBulkItemsPrompt "2 pipes");
      EvGenerateContent (FindBestMatchPrompt (JStr "Pipe") JUndefined [("P", "GI Pipe 25mm")]);
      EvRandomUUID],
     Abrupt TypeError).
Proof. by vm_compute. Qed.

(** Two candidates against the excavation catalog: five events. *)
Lemma handleProcess_calls_the_model_once_per_candidate_witness :
  (run (answering "[{'name':'excavation','quantity':2},{'name':'Pipe 25mm'}]" "A")
       0 (parseBulkItems "excavation x2, pipe")).2
  = Normal (JArr [JObj [("name", JStr "excavation"); ("quantity", JNum (ofZ 2))];
                  JObj [("name", JStr "Pipe 25mm")]])
  ∧ Forall well_formed_candidate
      [JObj [("name", JStr "excavation"); ("quantity", JNum (ofZ 2))];
       JObj [("name", JStr "Pipe 25mm")]]
  ∧ (run (answering "[{'name':'excavation','quantity':2},{'name':'Pipe 25mm'}]" "A")
         0 (IndexV2.handleProcess excavation (pasted "excavation x2, pipe"))).1
    = [EvGenerateContent (ParseBulkItemsPrompt "excavation x2, pipe");
       EvGenerateContent
         (FindBestMatchPrompt (JStr "excavation") JUndefined
            [("A", "Excavation"); ("B", "Excavation")]);
       EvRandomUUID;
       EvGenerateContent
         (FindBestMatchPrompt (JStr "Pipe 25mm") JUndefined
            [("A", "Excavation"); ("B", "Excavation")]);
       EvRandomUUID].
Proof.
  assert (Forall well_formed_candidate
      [JObj [("name", JStr "excavation"); ("quantity", JNum (ofZ 2))];
       JObj [("name", JStr "Pipe 25mm")]]) as Hwf.
  { repeat constructor; by do 2 eexists. }
  assert ((run (answering "[{'name':'excavation','quantity':2},{'name':'Pipe 25mm'}]" "A")
               0 (parseBulkItems "excavation x2, pipe")).2
          = Normal (JArr [JObj [("name", JStr "excavation"); ("quantity", JNum (ofZ 2))];
                          JObj [("name", JStr "Pipe 25mm")]])) as Hparsed
    by (vm_compute; reflexivity).
  split; [exact Hparsed|]. split; [exact Hwf|].
  apply (handleProcess_calls_the_model_once_per_candidate
           (answering "[{'name':'excavation','quantity':2},{'name':'Pipe 25mm'}]" "A")
           excavation (pasted "excavation x2, pipe") _ _ Hparsed eq_refl Hwf).
  reflexivity.
Defined.

(** Two candidates, of which the matcher resolves both to the record "A":
    two matched items, none without a match. *)
Lemma matched_count_counts_the_statuses_witness :
  TenderProcessor.items (pasted "excavation x2, pipe") = []
  ∧ match (run (answering "[{'name':'excavation','quantity':2},{'name':'Pipe 25mm'}]" "A")
               0 (IndexV2.handleProcess excavation (pasted "excavation x2, pipe"))).2 with
    | Normal st' =>
        IndexV2.matchedCount (TenderProcessor.items st')
        = (count_status matched (TenderProcessor.items st')
           + count_status review (TenderProcessor.items st'))%nat
        ∧ (IndexV2.matchedCount (TenderProcessor.items st')
           + count_status no_match (TenderProcessor.items st'))%nat
          = length (TenderProcessor.items st')
    | Abrupt _ => True
    end.
Proof.
  split; [reflexivity|].
  apply (matched_count_counts_the_statuses
           (answering "[{'name':'excavation','quantity':2},{'name':'Pipe 25mm'}]" "A")
           excavation (pasted "excavation x2, pipe")).
  reflexivity.
Defined.

(** The same run, counted: one item is [matched], one is under [review]. *)
Example counts_of_two_candidates :
  match (run (answering "[{'name':'excavation','quantity':2},{'name':'Pipe 25mm'}]" "A")
             0 (IndexV2.handleProcess excavation (pasted "excavation x2, pipe"))).2 with
  | Normal st' =>
      IndexV2.matchedCount (TenderProcessor.items st') = 2%nat
      ∧ count_status matched (TenderProcessor.items st') = 1%nat
      ∧ count_status review (TenderProcessor.items st') = 1%nat
      ∧ count_status no_match (TenderProcessor.items st') = 0%nat
  | Abrupt _ => False
  end.
Proof. by vm_compute. Qed.

(** The two "Excavation" records: one of them carries the flag. *)
Lemma benchmark_exists_unless_a_rate_is_NaN_witness :
  (1 < length (List.filter (same_name (record "A" "Excavation" (ofZ 100))) excavation))%nat
  ∧ ∃ r, In r excavation
         ∧ shares_name r (record "A" "Excavation" (ofZ 100))
         ∧ isLowest excavation r = true.
Proof.
  assert (1 < length (List.filter (same_name (record "A" "Excavation" (ofZ 100))) excavation))%nat
    as Hgroup by (vm_compute; constructor).
  split; [exact Hgroup|].
  destruct (benchmark_exists_unless_a_rate_is_NaN excavation _ Hgroup) as [Hflag _].
  apply Hflag. reflexivity.
Defined.

(** The excavation catalog in its two orders. *)
Lemma isLowest_ignores_the_order_witness :
  Permutation excavation [record "B" "Excavation" (ofZ 80); record "A" "Excavation" (ofZ 100)]
  ∧ In (record "B" "Excavation" (ofZ 80)) excavation
  ∧ isLowest [record "B" "Excavation" (ofZ 80); record "A" "Excavation" (ofZ 100)]
      (record "B" "Excavation" (ofZ 80))
    = isLowest excavation (record "B" "Excavation" (ofZ 80)).
Proof.
  assert (Permutation excavation
            [record "B" "Excavation" (ofZ 80); record "A" "Excavation" (ofZ 100)]) as Hperm
    by apply perm_swap.
  assert (In (record "B" "Excavation" (ofZ 80)) excavation) as Hin by (right; left; reflexivity).
  split; [exact Hperm|]. split; [exact Hin|].
  exact (isLowest_ignores_the_order _ _ _ Hperm Hin).
Defined.

(** A rate that is NaN among the "Excavation" records: no flag. *)
Example NaN_rate_hides_the_benchmark :
  isLowest [record "A" "Excavation" NaN; record "B" "Excavation" (ofZ 80)]
    (record "B" "Excavation" (ofZ 80)) = false
  ∧ isLowest [record "A" "Excavation" NaN; record "B" "Excavation" (ofZ 80)]
      (record "A" "Excavation" NaN) = false.
Proof. by vm_compute. Qed.

(** An infinite quantity on a line without a price, between two priced lines. *)
Lemma one_NaN_line_makes_the_total_NaN_witness :
  In (unmatched_line Infinity)
     [priced (ofZ 50) (ofZ 120); unmatched_line Infinity; priced (ofZ 2) (ofZ 3)]
  ∧ is_nan (lineAmount (unmatched_line Infinity)) = true
  ∧ calculateTotal [priced (ofZ 50) (ofZ 120); unmatched_line Infinity; priced (ofZ 2) (ofZ 3)]
    = NaN.
Proof.
  assert (In (unmatched_line Infinity)
            [priced (ofZ 50) (ofZ 120); unmatched_line Infinity; priced (ofZ 2) (ofZ 3)])
    as Hin by (right; left; reflexivity).
  split; [exact Hin|].
  destruct (one_NaN_line_makes_the_total_NaN _ _ Hin) as (Htotal & _ & Hline).
  assert (is_nan (lineAmount (unmatched_line Infinity)) = true) as Hnan
    by (apply Hline; [reflexivity|exact I]).
  split; [exact Hnan|exact (Htotal Hnan)].
Defined.

(** Two lines without a matched record, of quantities 3 and -2. *)
Lemma unpriced_quotation_totals_zero_witness :
  Forall (λ item, unpriced item ∧ is_finite (ToNumber (TenderItem.quantity item)) = true)
    [unmatched_line (ofZ 3); unmatched_line (ofZ (-2))]
  ∧ calculateTotal [unmatched_line (ofZ 3); unmatched_line (ofZ (-2))] = zero.
Proof.
  assert (Forall (λ item, unpriced item ∧ is_finite (ToNumber (TenderItem.quantity item)) = true)
            [unmatched_line (ofZ 3); unmatched_line (ofZ (-2))]) as Hall.
  { repeat constructor. }
  split; [exact Hall|]. exact (unpriced_quotation_totals_zero _ Hall).
Defined.

(** Adding "Brickwork" to the excavation catalog, then deleting it. *)
Lemma add_then_delete_restores_the_catalog_witness :
  App.editingItem browsing = None
  ∧ Forall (λ r, SORItem.id r ≠ uuid_answer offline 0) (App.sorData browsing)
  ∧ ∃ st1,
      run offline 0 (handleAddOrUpdateRate brickwork browsing)
      = ([EvRandomUUID; EvDateNow], Normal st1)
      ∧ App.sorData st1 = excavation ++ [stamped brickwork "a" (ofZ 1)]
      ∧ App.isFormOpen st1 = false
      ∧ App.sorData (deleteRate "a" st1) = excavation.
Proof.
  assert (Forall (λ r, SORItem.id r ≠ uuid_answer offline 0) (App.sorData browsing)) as Hfresh.
  { repeat constructor; discriminate. }
  split; [reflexivity|]. split; [exact Hfresh|].
  exact (add_then_delete_restores_the_catalog offline 0 brickwork browsing eq_refl Hfresh).
Defined.

(** The same, evaluated. *)
Example add_of_brickwork :
  run offline 0 (handleAddOrUpdateRate brickwork browsing)
  = ([EvRandomUUID; EvDateNow],
     Normal (App.mk database
               [record "A" "Excavation" (ofZ 100); record "B" "Excavation" (ofZ 80);
                SORItem.mk "a" "Brickwork" "m3" (ofZ 4200) "230 mm wall" "quote 9" (ofZ 1)]
               false None "")).
Proof. reflexivity. Qed.

(** The ids "A" and "B" of the excavation catalog stay distinct. *)
Lemma catalog_ids_stay_unique_witness :
  NoDup (catalog_ids browsing)
  ∧ (∀ id, NoDup (catalog_ids (deleteRate id browsing)))
  ∧ (∀ item,
       (App.editingItem browsing = None → uuid_answer offline 0 ∉ catalog_ids browsing) →
       ∃ t st', run offline 0 (handleAddOrUpdateRate item browsing) = (t, Normal st')
                ∧ NoDup (catalog_ids st'))
  ∧ (∀ items,
       NoDup (catalog_ids browsing
              ++ ((λ i, uuid_answer offline (0 + 2 * i)) <$> seq 0 (length items))) →
       ∃ t st', run offline 0 (addBulkRates items browsing) = (t, Normal st')
                ∧ NoDup (catalog_ids st')).
Proof.
  assert (NoDup (catalog_ids browsing)) as Hids.
  { apply (bool_decide_unpack _). vm_compute. exact I. }
  split; [exact Hids|]. exact (catalog_ids_stay_unique offline 0 browsing Hids).
Defined.

(** A bulk import of two items into the excavation catalog, evaluated. *)
Example import_of_two_items :
  run offline 0 (addBulkRates [brickwork; trenching] browsing)
  = ([EvRandomUUID; EvDateNow; EvRandomUUID; EvDateNow],
     Normal (App.mk database
               [record "A" "Excavation" (ofZ 100); record "B" "Excavation" (ofZ 80);
                SORItem.mk "a" "Brickwork" "m3" (ofZ 4200) "230 mm wall" "quote 9" (ofZ 1);
                SORItem.mk "c" "Trenching" "m" (ofZ 75) "by hand" "quote 7" (ofZ 3)]
               false None "")).
Proof. reflexivity. Qed.

(** The record "B" at the rate 80, opened and saved as it stands. *)
Lemma resaving_a_record_changes_nothing_witness :
  App.editingItem editing_B = Some (record "B" "Excavation" (ofZ 80))
  ∧ In (record "B" "Excavation" (ofZ 80)) (App.sorData editing_B)
  ∧ NoDup (catalog_ids editing_B)
  ∧ parseFloat (Number_toString (SORItem.rate (record "B" "Excavation" (ofZ 80))))
    = SORItem.rate (record "B" "Excavation" (ofZ 80))
  ∧ ∃ st',
      run offline 0
        (handleAddOrUpdateRate
           (submitted (editEffect (Some (record "B" "Excavation" (ofZ 80))) blank_form))
           editing_B)
      = ([], Normal st')
      ∧ App.sorData st' = App.sorData editing_B
      ∧ App.isFormOpen st' = false
      ∧ App.editingItem st' = None.
Proof.
  assert (In (record "B" "Excavation" (ofZ 80)) (App.sorData editing_B)) as Hin
    by (right; left; reflexivity).
  assert (NoDup (catalog_ids editing_B)) as Hids.
  { apply (bool_decide_unpack _). vm_compute. exact I. }
  assert (parseFloat (Number_toString (SORItem.rate (record "B" "Excavation" (ofZ 80))))
          = SORItem.rate (record "B" "Excavation" (ofZ 80))) as Hrate
    by (vm_compute; reflexivity).
  split; [reflexivity|]. split; [exact Hin|]. split; [exact Hids|]. split; [exact Hrate|].
  exact (resaving_a_record_changes_nothing offline 0 editing_B blank_form _ eq_refl Hin Hids Hrate).
Defined.

(** The dated catalog under the query "a": "Brickwork" is left out, the
    others come newest first. *)
Lemma groupedRates_lists_the_matches_newest_first_witness :
  Forall (clocked (λ r, N_of_number (SORItem.timestamp r)))
    (App.sorData (App.mk database dated_catalog false None "a"))
  ∧ Modular.groupedRates (App.mk database dated_catalog false None "a")
    = [dated "C" "Excavation" 3000; dated "D" "Plaster" 2000; dated "A" "Excavation" 1000]
  ∧ StronglySorted
      (λ a b, (N_of_number (SORItem.timestamp b) ≤ N_of_number (SORItem.timestamp a))%N)
      (Modular.groupedRates (App.mk database dated_catalog false None "a")).
Proof.
  assert (Forall (clocked (λ r, N_of_number (SORItem.timestamp r)))
            (App.sorData (App.mk database dated_catalog false None "a"))) as Hclock.
  { repeat constructor. }
  split; [exact Hclock|]. split; [by vm_compute|].
  destruct (groupedRates_lists_the_matches_newest_first _ _ Hclock) as (_ & Hsorted & _).
  exact Hsorted.
Defined.

(** All records of the dated catalog: the two records of the time 3000
    keep the order of the catalog. *)
Example groupedRates_of_the_dated_catalog :
  Modular.groupedRates (App.mk database dated_catalog false None "")
  = [dated "B" "Brickwork" 3000; dated "C" "Excavation" 3000; dated "D" "Plaster" 2000;
     dated "A" "Excavation" 1000]
  ∧ IndexV2.filteredRates (App.mk database dated_catalog false None "EXC")
    = [dated "A" "Excavation" 1000; dated "C" "Excavation" 3000].
Proof. by vm_compute. Qed.

(** The awkward table reads back. *)
Lemma generateCSV_reads_back_witness :
  Forall (λ row, row ≠ []) awkward_table
  ∧ read_csv (Modular.generateCSV awkward_table) = Some (map (map cell_text) awkward_table)
  ∧ ∀ rows', Forall (λ row, row ≠ []) rows' →
      Modular.generateCSV awkward_table = Modular.generateCSV rows' →
      Forall2 (Forall2 (λ cell cell', cell_text cell = cell_text cell')) awkward_table rows'.
Proof.
  assert (Forall (λ row, row ≠ []) awkward_table) as Hrows.
  { repeat constructor; discriminate. }
  split; [exact Hrows|]. exact (generateCSV_reads_back awkward_table Hrows).
Defined.

(** The text of a table of two rows, written with apostrophes in place of
    double quotes. *)
Example generateCSV_of_two_rows :
  Modular.generateCSV
    [[JStr "Pipe, 25mm"; JNull; JNum (ofZ 120)]; [JStr (Demo.json "12' bar"); JBool true]]
  = BOM :: code_units (Demo.json "'Pipe, 25mm','','120'" ++ String CR (String LF EmptyString)
                       ++ Demo.json "'12'' bar','true'").
Proof. by vm_compute. Qed.

(** The scope check on three answers of the model. *)
Example checkScopeMatch_on_three_answers :
  match Modular.checkScopeMatch "trench" "trench, by hand",
        Index.checkScopeMatch "trench" "trench, by hand" with
  | OneCall _ k, OneCall _ k' =>
      k (Resolves (Some (Demo.json "{'isMatch':true}")))
      = Ret (JObj [("isMatch", JBool true); ("confidence", JNum zero);
                   ("reason", JStr "Unknown")])
      ∧ k' (Resolves (Some (Demo.json "{'isMatch':true}")))
        = Ret (JObj [("isMatch", JBool true)])
      ∧ k (Resolves (Some "null")) = Ret scope_error
      ∧ k' (Resolves (Some "null")) = Ret JNull
      ∧ k (Resolves None) = Ret (JObj [("isMatch", JBool false); ("confidence", JNum zero);
                                       ("reason", JStr "Unknown")])
  | _, _ => False
  end.
Proof. by vm_compute. Qed.

End Examples.

(** C9, as stated, fails: with the rates 0.1, 0.2 and 0.3 at quantity 1, the
    total is 0.6000000000000001 in one order and 0.6 in the other. *)
Example grand_total_depends_on_the_order :
  Permutation
    [priced one (ratio 1 10); priced one (ratio 2 10); priced one (ratio 3 10)]
    [priced one (ratio 3 10); priced one (ratio 2 10); priced one (ratio 1 10)]
  ∧ ∀ `{Builtins},
      calculateTotal
        [priced one (ratio 1 10); priced one (ratio 2 10); priced one (ratio 3 10)]
      = S754_finite false 5404319552844596 (-53)
      ∧ calculateTotal
          [priced one (ratio 3 10); priced one (ratio 2 10); priced one (ratio 1 10)]
        = ratio 6 10
      ∧ js_eq (S754_finite false 5404319552844596 (-53)) (ratio 6 10) = false.
Proof.
  split.
  - apply (Permutation_rev [_; _; _]).
  - intros B. unfold calculateTotal, lineAmount, priced. simpl.
    rewrite !ToNumber_number. by vm_compute.
Qed.

(** C9, amended, on 50 x 120 and 2 x 3: the total is 6006 in both orders. *)
Lemma grand_total_exact_on_small_naturals_witness :
  (∀ item, In item [priced (ofZ 50) (ofZ 120); priced (ofZ 2) (ofZ 3)] →
     natural_line item (natural_quantity item) (natural_rate item)
     ∧ (natural_quantity item < 2 ^ 53)%N ∧ (natural_rate item < 2 ^ 53)%N)
  ∧ (N_sum (map (λ item, natural_quantity item * natural_rate item)%N
              [priced (ofZ 50) (ofZ 120); priced (ofZ 2) (ofZ 3)]) < 2 ^ 53)%N
  ∧ ∀ `{Builtins},
      calculateTotal [priced (ofZ 50) (ofZ 120); priced (ofZ 2) (ofZ 3)] = ofN 6006
      ∧ calculateTotal [priced (ofZ 2) (ofZ 3); priced (ofZ 50) (ofZ 120)]
        = calculateTotal [priced (ofZ 50) (ofZ 120); priced (ofZ 2) (ofZ 3)].
Proof.
  assert (∀ item, In item [priced (ofZ 50) (ofZ 120); priced (ofZ 2) (ofZ 3)] →
     natural_line item (natural_quantity item) (natural_rate item)
     ∧ (natural_quantity item < 2 ^ 53)%N ∧ (natural_rate item < 2 ^ 53)%N) as Hitems.
  { intros item [<-|[<-|[]]]; repeat split. }
  assert (N_sum (map (λ item, natural_quantity item * natural_rate item)%N
              [priced (ofZ 50) (ofZ 120); priced (ofZ 2) (ofZ 3)]) < 2 ^ 53)%N as Hsum
    by reflexivity.
  split; [exact Hitems|]. split; [exact Hsum|]. intros B.
  destruct (grand_total_exact_on_small_naturals natural_quantity natural_rate _ Hitems Hsum)
    as (_ & Htotal & Hperm).
  split; [exact Htotal|]. apply Hperm. apply perm_swap.
Defined.
